(** * MPICH communicator release and asynchronous progress thread

    A shallow embedding of two pieces of MPICH:

    - [MPIR_Comm_release] of [src/include/mpir_comm.h], the inlined
      reference-count release of a communicator;
    - the asynchronous progress thread manager ([progress_fn],
      [MPIDI_parse_progress_thread_affinity], [MPIR_Init_async_thread],
      [MPIR_Finalize_async_thread], [MPII_init_async],
      [MPII_finalize_async]).

    C [int]s are integers of [Z] kept in the 32-bit range, pointers are
    addresses into a finite map, C strings are [string]s (the characters
    before the terminating NUL).  A computation whose C behaviour is
    undefined (division by zero, a read through a dangling pointer or of an
    indeterminate cell, signed overflow) yields [None]. *)

From Stdlib Require Import Ascii.
From stdpp Require Import base option numbers list strings gmap relations.

Local Open Scope Z_scope.

(** ** Common constants *)

Definition MPI_SUCCESS : Z := 0.
Definition MPI_ERR_OTHER : Z := 15.
Definition MPI_THREAD_MULTIPLE : Z := 3.

Definition INT_MIN : Z := - 2 ^ 31.
Definition INT_MAX : Z := 2 ^ 31 - 1.

Definition in_int_range (z : Z) : bool := (INT_MIN <=? z) && (z <=? INT_MAX).

(** The fields of [struct MPIR_Comm] that the embedded functions read or
    write.  [node_comm] is a pointer that may be null. *)
#[warnings="-register-all"]
Inductive MPIR_Comm : Type := Build_MPIR_Comm {
  handle : Z;
  ref_count : Z;
  rank : Z;
  local_size : Z;
  node_comm : option MPIR_Comm
}.

Definition set_ref_count (n : Z) (c : MPIR_Comm) : MPIR_Comm :=
  {| handle := handle c; ref_count := n; rank := rank c;
     local_size := local_size c; node_comm := node_comm c |}.

(** ** Communicator release *)

Module Comm.

(** The objects allocated from [MPIR_Comm_mem], by address, and the calls
    made to [MPIR_Comm_delete_internal], oldest first. *)
Record comm_state : Type := {
  comms : gmap Z MPIR_Comm;
  delete_calls : list Z
}.

(** Modelled from the spec: the macro [MPIR_Object_release_ref], which
    [MPIR_Comm_release_ref] expands to, is not in the sources.  It
    decrements the count of the object and stores in [in_use] the count
    that is left. *)
Definition MPIR_Object_release_ref (comm_ptr : Z) (h : gmap Z MPIR_Comm)
  : option (Z * gmap Z MPIR_Comm) :=
  c ← h !! comm_ptr;
  let n := ref_count c - 1 in
  if in_int_range n then Some (n, <[comm_ptr := set_ref_count n c]> h)
  else None.

Definition MPIR_Comm_release_ref := MPIR_Object_release_ref.

(** Modelled from the spec: the macro [MPIR_Object_add_ref], which
    [MPIR_Comm_add_ref] expands to, is not in the sources.  It increments
    the count of the object. *)
Definition MPIR_Object_add_ref (comm_ptr : Z) (h : gmap Z MPIR_Comm)
  : option (gmap Z MPIR_Comm) :=
  c ← h !! comm_ptr;
  let n := ref_count c + 1 in
  if in_int_range n then Some (<[comm_ptr := set_ref_count n c]> h)
  else None.

Definition MPIR_Comm_add_ref := MPIR_Object_add_ref.

Section Release.

(** What [MPIR_Comm_delete_internal] does to the objects and the error
    code it returns; only its prototype is in the header. *)
Variable delete_body : Z -> gmap Z MPIR_Comm -> Z * gmap Z MPIR_Comm.

Definition MPIR_Comm_delete_internal (comm_ptr : Z) (s : comm_state)
  : Z * comm_state :=
  let '(e, h) := delete_body comm_ptr (comms s) in
  (e, {| comms := h; delete_calls := delete_calls s ++ [comm_ptr] |}).

Definition MPIR_Comm_release (comm_ptr : Z) (s : comm_state)
  : option (Z * comm_state) :=
  let mpi_errno := MPI_SUCCESS in
  '(in_use, h) ← MPIR_Comm_release_ref comm_ptr (comms s);
  let s1 := {| comms := h; delete_calls := delete_calls s |} in
  if in_use =? 0 then Some (MPIR_Comm_delete_internal comm_ptr s1)
  else Some (mpi_errno, s1).

End Release.

End Comm.

(** ** Asynchronous progress thread: functions of the C library and of MPL *)

Module Libc.

(** [size_t] on an LP64 platform and the conversion of an integer to
    [int] (wrap-around into the 32-bit signed range). *)
Definition to_size_t (z : Z) : Z := z mod 2 ^ 64.
Definition to_int (z : Z) : Z := (z + 2 ^ 31) mod 2 ^ 32 - 2 ^ 31.

Fixpoint strlen (s : string) : Z :=
  match s with
  | EmptyString => 0
  | String _ s' => 1 + strlen s'
  end.

(** [strchr delim c]: does [c] occur in [delim]? *)
Fixpoint strchr (delim : string) (c : ascii) : bool :=
  match delim with
  | EmptyString => false
  | String d delim' => Ascii.eqb c d || strchr delim' c
  end.

(** The scan of [strsep]: the token that ends at the first delimiter, and
    what follows the delimiter ([None], the null pointer, when the string
    ends first). *)
Fixpoint strsep_scan (s delim : string) : string * option string :=
  match s with
  | EmptyString => (EmptyString, None)
  | String c s' =>
      if strchr delim c then (EmptyString, Some s')
      else let '(tok, rest) := strsep_scan s' delim in (String c tok, rest)
  end.

(** Modelled from the spec: [MPL_strsep] is not in the sources.  The
    entries of the list are what stands between two delimiters, that is
    what the [strsep] of the C library returns call after call:
    [MPL_strsep(&stringp, delim)] returns the token that starts at
    [stringp] (the null pointer when [stringp] is null) and moves
    [stringp] past the delimiter that ended it. *)
Definition MPL_strsep (stringp : option string) (delim : string)
  : option string * option string :=
  match stringp with
  | None => (None, None)
  | Some s => let '(tok, rest) := strsep_scan s delim in (Some tok, rest)
  end.

Definition isspace (c : ascii) : bool :=
  let n := Z.of_N (N_of_ascii c) in
  (n =? 32) || ((9 <=? n) && (n <=? 13)).

Definition digit_of (c : ascii) : option Z :=
  let n := Z.of_N (N_of_ascii c) in
  if (48 <=? n) && (n <=? 57) then Some (n - 48) else None.

Fixpoint skip_space (s : string) : string :=
  match s with
  | String c s' => if isspace c then skip_space s' else s
  | EmptyString => s
  end.

Fixpoint atoi_digits (acc : Z) (s : string) : Z :=
  match s with
  | String c s' =>
      match digit_of c with
      | Some d => atoi_digits (10 * acc + d) s'
      | None => acc
      end
  | EmptyString => acc
  end.

(** [atoi]: leading white space, an optional sign, then the longest run
    of decimal digits (none gives 0).  A value that an [int] cannot hold
    is undefined behaviour. *)
Definition atoi (s : string) : option Z :=
  let s1 := skip_space s in
  let '(neg, s2) :=
    match s1 with
    | String "-"%char r => (true, r)
    | String "+"%char r => (false, r)
    | _ => (false, s1)
    end in
  let v := atoi_digits 0 s2 in
  let v' := if neg : bool then - v else v in
  if in_int_range v' then Some v' else None.

End Libc.

(** ** Asynchronous progress thread: the threaded build *)

Module Async.
Import Libc.

(** Texts written by [printf] and [fprintf(stderr, ...)], with the
    arguments of their formats. *)
Inductive message : Type :=
| Msg_cliques_affinity_conflict
| Msg_unexpected_proc_id (proc_id_str affinity : string)
| Msg_unexpected_end (expected read_count : Z) (affinity : string)
| Msg_unexpected_number (affinity : string)
| Msg_no_thread_multiple.

(** The calls with an effect outside the function, in program order. *)
Inductive event : Type :=
| Ev_printf (m : message)
| Ev_fprintf_stderr (m : message)
| Ev_malloc (n : Z)
| Ev_free
| Ev_thread_create (err : Z) (tid : Z)
| Ev_set_affinity (tid : Z) (affinity_idx : Z) (proc_id : Z) (thr_err : Z)
| Ev_atomic_store (v : Z)
| Ev_thread_join (tid : Z).

(** What the functions read and do not write: the control variables, the
    process and thread information, and the answers of the platform
    ([MPL_get_nprocs], the [err] of [MPID_Thread_create] with the id of
    the thread it makes, the [err] of [MPL_thread_set_affinity]). *)
Record config : Type := {
  MPIR_CVAR_ASYNC_PROGRESS : Z;
  MPIR_CVAR_CH4_PROGRESS_THREAD_AFFINITY : option string;
  MPIR_CVAR_NUM_CLIQUES : Z;
  MPIR_CVAR_ODD_EVEN_CLIQUES : Z;
  comm_world : MPIR_Comm;
  thread_provided : Z;
  MPL_get_nprocs : Z;
  MPID_Thread_create : Z * Z;
  MPL_thread_set_affinity : Z -> Z -> Z
}.

(** The file-scope variables, the progress threads that are running, and
    the events so far. *)
Record state : Type := {
  MPIR_async_thread_initialized : Z;
  progress_thread_id : Z;
  async_done : Z;
  running : list Z;
  trace : list event
}.

Definition emit (evs : list event) (s : state) : state :=
  {| MPIR_async_thread_initialized := MPIR_async_thread_initialized s;
     progress_thread_id := progress_thread_id s;
     async_done := async_done s;
     running := running s;
     trace := trace s ++ evs |}.

(** [thread_affinity[i]]: a read outside the block, or of a cell never
    written, is undefined. *)
Definition array_get (a : list (option Z)) (i : Z) : option Z :=
  if i <? 0 then None else mjoin (a !! Z.to_nat i).

(** [thread_affinity[i] = v] *)
Definition array_set (a : list (option Z)) (i v : Z)
  : option (list (option Z)) :=
  if (0 <=? i) && (i <? Z.of_nat (length a))
  then Some (<[Z.to_nat i := Some v]> a)
  else None.

(** [MPL_malloc(n * sizeof(int))]: [n] cells of indeterminate content.
    The source does not test the result, and the allocation is taken to
    succeed. *)
Definition MPL_malloc (n : Z) : list (option Z) := replicate (Z.to_nat n) None.

(** [affinity && strlen(affinity) > 0] *)
Definition affinity_given (cfg : config) : bool :=
  match MPIR_CVAR_CH4_PROGRESS_THREAD_AFFINITY cfg with
  | Some a => 0 <? strlen a
  | None => false
  end.

Definition affinity_delim : string :=
  String " "%char (String "010"%char (String "009"%char (String ","%char EmptyString))).

(** The loop that generates the default affinity; [n] iterations are
    left, [proc_count] is a [size_t]. *)
Fixpoint default_affinity_loop (n : nat) (th_idx proc_count : Z)
    (thread_affinity : list (option Z)) : option (list (option Z)) :=
  match n with
  | O => Some thread_affinity
  | S n' =>
      a ← (if to_size_t th_idx <? proc_count
           then array_set thread_affinity th_idx
                  (to_int (to_size_t (proc_count - th_idx - 1)))
           else if proc_count =? 0 then None
           else v ← array_get thread_affinity (to_size_t th_idx mod proc_count);
                array_set thread_affinity th_idx v);
      default_affinity_loop n' (th_idx + 1) proc_count a
  end.

(** The loop over the entries of the affinity string; [n] iterations are
    left.  The result is the error code, the table and what was
    printed; [read_count] is returned for the test after the loop. *)
Fixpoint parse_affinity_loop (n : nat) (th_idx read_count : Z)
    (tmp : option string) (thread_affinity : list (option Z))
    (threads_per_node : Z) (affinity_to_parse : string)
  : option (Z * Z * list (option Z) * list event) :=
  match n with
  | O => Some (MPI_SUCCESS, read_count, thread_affinity, [])
  | S n' =>
      let '(proc_id_str, tmp') := MPL_strsep tmp affinity_delim in
      match proc_id_str with
      | Some tok =>
          v ← atoi tok;
          if v <? 0 then
            Some (MPI_ERR_OTHER, read_count, thread_affinity,
                  [Ev_printf (Msg_unexpected_proc_id tok affinity_to_parse)])
          else
            a ← array_set thread_affinity th_idx v;
            parse_affinity_loop n' (th_idx + 1) (read_count + 1) tmp' a
              threads_per_node affinity_to_parse
      | None =>
          Some (MPI_ERR_OTHER, read_count, thread_affinity,
                [Ev_printf (Msg_unexpected_end threads_per_node read_count
                              affinity_to_parse)])
      end
  end.

(** [MPIDI_parse_progress_thread_affinity]: the error code, the table
    and what was printed.  The [MPL_DBG_MSG_FMT] lines expand to nothing
    outside a debugging build and are left out. *)
Definition MPIDI_parse_progress_thread_affinity (cfg : config)
    (thread_affinity : list (option Z)) (threads_per_node : Z)
  : option (Z * list (option Z) * list event) :=
  match MPIR_CVAR_CH4_PROGRESS_THREAD_AFFINITY cfg with
  | Some affinity_to_parse =>
      if strlen affinity_to_parse =? 0 then
        let proc_count := to_size_t (MPL_get_nprocs cfg) in
        a ← default_affinity_loop (Z.to_nat threads_per_node) 0 proc_count
              thread_affinity;
        Some (MPI_SUCCESS, a, [])
      else
        let tmp := Some affinity_to_parse in
        '(mpi_errno, read_count, a, out) ←
          parse_affinity_loop (Z.to_nat threads_per_node) 0 0 tmp
            thread_affinity threads_per_node affinity_to_parse;
        if mpi_errno =? MPI_SUCCESS then
          if read_count <? threads_per_node then
            Some (MPI_ERR_OTHER, a,
                  [Ev_printf (Msg_unexpected_number affinity_to_parse)])
          else Some (MPI_SUCCESS, a, [])
        else Some (mpi_errno, a, out)
  | None =>
      let proc_count := to_size_t (MPL_get_nprocs cfg) in
      a ← default_affinity_loop (Z.to_nat threads_per_node) 0 proc_count
            thread_affinity;
      Some (MPI_SUCCESS, a, [])
  end.

(** [num_cliques] as [MPIR_Init_async_thread] computes it *)
Definition num_cliques (cfg : config) : Z :=
  if 1 <? MPIR_CVAR_NUM_CLIQUES cfg then MPIR_CVAR_NUM_CLIQUES cfg
  else if negb (MPIR_CVAR_ODD_EVEN_CLIQUES cfg =? 0) then 2
  else 1.

(** [MPID_Thread_create(progress_fn, NULL, &progress_thread_id, &err)]:
    with [err = 0] a thread runs [progress_fn] and its id is stored. *)
Definition thread_create (cfg : config) (s : state) : Z * state :=
  let '(err, tid) := MPID_Thread_create cfg in
  if err =? 0 then
    (err, {| MPIR_async_thread_initialized := MPIR_async_thread_initialized s;
             progress_thread_id := tid;
             async_done := async_done s;
             running := tid :: running s;
             trace := trace s ++ [Ev_thread_create err tid] |})
  else (err, emit [Ev_thread_create err tid] s).

(** The single exit of [MPIR_Init_async_thread]: [fn_exit] frees the
    table and returns [mpi_errno]; [fn_fail] jumps to it. *)
Definition init_fn_exit (mpi_errno : Z) (s : state) : option (Z * state) :=
  Some (mpi_errno, emit [Ev_free] s).

(** Modelled from the spec: the macros [MPIR_ERR_CHKANDJUMP] and
    [MPIR_ERR_CHKANDJUMP1] are not in the sources.  When [cond] is not
    zero they set [mpi_errno] to an error of class [class_] and jump to
    [fn_fail]; otherwise the function goes on. *)
Definition MPIR_ERR_CHKANDJUMP {A : Type} (cond class_ : Z)
    (fn_fail : Z -> A) (go_on : A) : A :=
  if negb (cond =? 0) then fn_fail class_ else go_on.

Definition MPIR_Init_async_thread (cfg : config) (s : state)
  : option (Z * state) :=
  let nc := num_cliques cfg in
  let s :=
    if (1 <? nc) && affinity_given cfg
    then emit [Ev_fprintf_stderr Msg_cliques_affinity_conflict] s else s in
  let global_rank := rank (comm_world cfg) in
  let local_rank :=
    match node_comm (comm_world cfg) with
    | Some node => rank node
    | None => 0
    end in
  let local_size' :=
    if 1 <? nc then local_size (comm_world cfg)
    else match node_comm (comm_world cfg) with
         | Some node => local_size node
         | None => 1
         end in
  let threads_per_node := local_size' in
  let thread_affinity := MPL_malloc threads_per_node in
  let s := emit [Ev_malloc threads_per_node] s in
  '(mpi_errno, thread_affinity, out) ←
    MPIDI_parse_progress_thread_affinity cfg thread_affinity threads_per_node;
  let s := emit out s in
  MPIR_ERR_CHKANDJUMP mpi_errno MPI_ERR_OTHER (λ e, init_fn_exit e s)
    (let '(err, s) := thread_create cfg s in
     MPIR_ERR_CHKANDJUMP err MPI_ERR_OTHER (λ e, init_fn_exit e s)
       (let affinity_idx := if 1 <? nc then global_rank else local_rank in
        proc_id ← array_get thread_affinity affinity_idx;
        let thr_err :=
          MPL_thread_set_affinity cfg (progress_thread_id s) proc_id in
        let s :=
          emit [Ev_set_affinity (progress_thread_id s) affinity_idx proc_id
                  thr_err] s in
        if affinity_given cfg
        then MPIR_ERR_CHKANDJUMP thr_err MPI_ERR_OTHER
               (λ e, init_fn_exit e s) (init_fn_exit mpi_errno s)
        else init_fn_exit mpi_errno s)).

(** [MPL_atomic_store_int(&async_done, 1)], then
    [MPID_Thread_join(progress_thread_id)], which returns when that
    thread has left [progress_fn]. *)
Definition MPIR_Finalize_async_thread (cfg : config) (s : state)
  : option (Z * state) :=
  let mpi_errno := MPI_SUCCESS in
  let tid := progress_thread_id s in
  Some (mpi_errno,
        {| MPIR_async_thread_initialized := MPIR_async_thread_initialized s;
           progress_thread_id := tid;
           async_done := 1;
           running := filter (λ t, t ≠ tid) (running s);
           trace := trace s ++ [Ev_atomic_store 1; Ev_thread_join tid] |}).

(** The device entry points that the [MPII_] functions call; the
    comments in the source say that they call the [MPIR_] functions
    above, and nothing more of them is in the sources. *)
Class Device : Type := {
  MPID_Init_async_thread : config -> state -> option (Z * state);
  MPID_Finalize_async_thread : config -> state -> option (Z * state)
}.

Definition set_initialized (v : Z) (s : state) : state :=
  {| MPIR_async_thread_initialized := v;
     progress_thread_id := progress_thread_id s;
     async_done := async_done s;
     running := running s;
     trace := trace s |}.

Section Entry.
Context `{Device}.

Definition MPII_init_async (cfg : config) (s : state)
  : option (Z * state) :=
  let mpi_errno := MPI_SUCCESS in
  if negb (MPIR_CVAR_ASYNC_PROGRESS cfg =? 0) then
    if thread_provided cfg =? MPI_THREAD_MULTIPLE then
      '(mpi_errno, s) ← MPID_Init_async_thread cfg s;
      if negb (mpi_errno =? 0) then Some (mpi_errno, s)
      else Some (mpi_errno, set_initialized 1 s)
    else
      Some (mpi_errno, emit [Ev_printf Msg_no_thread_multiple] s)
  else Some (mpi_errno, s).

Definition MPII_finalize_async (cfg : config) (s : state)
  : option (Z * state) :=
  let mpi_errno := MPI_SUCCESS in
  if negb (MPIR_async_thread_initialized s =? 0)
  then MPID_Finalize_async_thread cfg s
  else Some (mpi_errno, s).

End Entry.

(** The device that only forwards, as the comments in the source
    describe it. *)
Definition forwarding_device : Device :=
  {| MPID_Init_async_thread := MPIR_Init_async_thread;
     MPID_Finalize_async_thread := MPIR_Finalize_async_thread |}.

(** The variables as the program starts: the static initialisers. *)
Definition initial_state : state :=
  {| MPIR_async_thread_initialized := 0;
     progress_thread_id := 0;
     async_done := 0;
     running := [];
     trace := [] |}.

End Async.

(** ** The progress thread and the thread that stops it *)

Module Progress.

(** What [progress_fn] does, one event a step. *)
Inductive wevent : Type :=
| CS_ENTER
| Progress_start
| Load (v : Z)
| Progress_test
| CS_YIELD
| Progress_end
| CS_EXIT.

(** What [MPIR_Finalize_async_thread] does. *)
Inductive mevent : Type :=
| Store (v : Z)
| Join.

Inductive label : Type :=
| W (e : wevent)
| M (e : mevent).

(** The statement of [progress_fn] that runs next. *)
Inductive wpc : Type :=
| At_cs_enter
| At_progress_start
| At_while
| At_progress_test
| At_cs_yield
| At_progress_end
| At_cs_exit
| Returned.

(** The statement of [MPIR_Finalize_async_thread] that runs next. *)
Inductive mpc : Type :=
| At_store
| At_join
| Finalized.

(** The two threads and the atomic [async_done] they share; [history]
    is the interleaving so far, oldest first. *)
Record sys : Type := {
  async_done : Z;
  worker : wpc;
  main : mpc;
  history : list label
}.

(** One step of [progress_fn]; the test of the [while] is the atomic
    load. *)
Definition progress_fn (done : Z) (pc : wpc) : option (wpc * wevent) :=
  match pc with
  | At_cs_enter => Some (At_progress_start, CS_ENTER)
  | At_progress_start => Some (At_while, Progress_start)
  | At_while =>
      if done =? 0 then Some (At_progress_test, Load done)
      else Some (At_progress_end, Load done)
  | At_progress_test => Some (At_cs_yield, Progress_test)
  | At_cs_yield => Some (At_while, CS_YIELD)
  | At_progress_end => Some (At_cs_exit, Progress_end)
  | At_cs_exit => Some (Returned, CS_EXIT)
  | Returned => None
  end.

Definition worker_step (s : sys) : option sys :=
  '(pc, e) ← progress_fn (async_done s) (worker s);
  Some {| async_done := async_done s; worker := pc; main := main s;
          history := history s ++ [W e] |}.

(** One step of [MPIR_Finalize_async_thread]; the join does not return
    before the thread has left [progress_fn]. *)
Definition finalize_step (s : sys) : option sys :=
  match main s with
  | At_store =>
      Some {| async_done := 1; worker := worker s; main := At_join;
              history := history s ++ [M (Store 1)] |}
  | At_join =>
      match worker s with
      | Returned =>
          Some {| async_done := async_done s; worker := worker s;
                  main := Finalized; history := history s ++ [M Join] |}
      | _ => None
      end
  | Finalized => None
  end.

Inductive step : sys -> sys -> Prop :=
| step_worker s s' : worker_step s = Some s' -> step s s'
| step_main s s' : finalize_step s = Some s' -> step s s'.

(** The thread has just been created and the other thread has not yet
    called [MPIR_Finalize_async_thread]. *)
Definition init : sys :=
  {| async_done := 0; worker := At_cs_enter; main := At_store;
     history := [] |}.

(** The worker alone, [n] steps. *)
Fixpoint run_worker (n : nat) (s : sys) : sys :=
  match n with
  | O => s
  | S n' =>
      match worker_step s with
      | Some s' => run_worker n' s'
      | None => s
      end
  end.

(** The two threads under a schedule: [true] lets the progress thread
    take a step, [false] the other thread; [None] when the thread that
    is scheduled cannot move. *)
Fixpoint run_schedule (sched : list bool) (s : sys) : option sys :=
  match sched with
  | [] => Some s
  | true :: sched' => s' ← worker_step s; run_schedule sched' s'
  | false :: sched' => s' ← finalize_step s; run_schedule sched' s'
  end.

End Progress.

(** ** The build without [MPI_THREAD_MULTIPLE] *)

Module Unthreaded.

Definition MPIR_Finalize_async_thread (cfg : Async.config) (s : Async.state)
  : option (Z * Async.state) := Some (MPI_SUCCESS, s).

Definition MPIR_Init_async_thread (cfg : Async.config) (s : Async.state)
  : option (Z * Async.state) := Some (MPI_SUCCESS, s).

Definition MPII_init_async (cfg : Async.config) (s : Async.state)
  : option (Z * Async.state) := Some (MPI_SUCCESS, s).

Definition MPII_finalize_async (cfg : Async.config) (s : Async.state)
  : option (Z * Async.state) := Some (MPI_SUCCESS, s).

End Unthreaded.

(** ** The translation unit under its two configurations *)

Module Build.

(** The macros that the [#if] of the file tests. *)
Record build : Type := {
  MPICH_IS_THREADED : bool;
  MPICH_THREAD_LEVEL : Z
}.

(** [defined(MPICH_IS_THREADED) && MPICH_THREAD_LEVEL == MPI_THREAD_MULTIPLE] *)
Definition threaded (b : build) : bool :=
  MPICH_IS_THREADED b && (MPICH_THREAD_LEVEL b =? MPI_THREAD_MULTIPLE).

Section Entry.
Context `{Async.Device}.

Definition MPIR_Init_async_thread (b : build) :=
  if threaded b then Async.MPIR_Init_async_thread
  else Unthreaded.MPIR_Init_async_thread.

Definition MPIR_Finalize_async_thread (b : build) :=
  if threaded b then Async.MPIR_Finalize_async_thread
  else Unthreaded.MPIR_Finalize_async_thread.

Definition MPII_init_async (b : build) :=
  if threaded b then Async.MPII_init_async
  else Unthreaded.MPII_init_async.

Definition MPII_finalize_async (b : build) :=
  if threaded b then Async.MPII_finalize_async
  else Unthreaded.MPII_finalize_async.

End Entry.

End Build.

(** * Vocabulary of the properties *)

(** ** The affinity table *)

(** Is a clique override active? *)
Definition clique_override (cfg : Async.config) : bool :=
  (1 <? Async.MPIR_CVAR_NUM_CLIQUES cfg)
  || negb (Async.MPIR_CVAR_ODD_EVEN_CLIQUES cfg =? 0).

(** The size of the affinity table and the index of this process in it,
    as the description of the start gives them. *)
Definition table_size (cfg : Async.config) : Z :=
  if clique_override cfg then local_size (Async.comm_world cfg)
  else match node_comm (Async.comm_world cfg) with
       | Some node => local_size node
       | None => 1
       end.

Definition table_index (cfg : Async.config) : Z :=
  if clique_override cfg then rank (Async.comm_world cfg)
  else match node_comm (Async.comm_world cfg) with
       | Some node => rank node
       | None => 0
       end.

(** What [MPIR_Init_async_thread] has done when it calls the parser. *)
Definition events_before_parse (cfg : Async.config) : list Async.event :=
  (if clique_override cfg && Async.affinity_given cfg
   then [Async.Ev_fprintf_stderr Async.Msg_cliques_affinity_conflict] else [])
  ++ [Async.Ev_malloc (table_size cfg)].

(** The state once the thread [tid] has been created and [evs] have
    happened. *)
Definition spawned (tid : Z) (evs : list Async.event) (s : Async.state)
  : Async.state :=
  {| Async.MPIR_async_thread_initialized := Async.MPIR_async_thread_initialized s;
     Async.progress_thread_id := tid;
     Async.async_done := Async.async_done s;
     Async.running := tid :: Async.running s;
     Async.trace := Async.trace s ++ evs |}.

(** The processor that the default affinity gives to slot [t] when
    there are [P] processors. *)
Definition default_proc (P t : Z) : Z := P - 1 - t mod P.

Definition is_printf (ev : Async.event) : bool :=
  match ev with Async.Ev_printf _ => true | _ => false end.

(** ** Affinity strings *)

(** An entry of a well-formed specification: decimal digits, at least
    one, read in base ten. *)
Fixpoint all_digits (s : string) : bool :=
  match s with
  | EmptyString => true
  | String c s' => bool_decide (is_Some (Libc.digit_of c)) && all_digits s'
  end.

Fixpoint decimal_value (s : string) : Z :=
  match s with
  | EmptyString => 0
  | String c s' =>
      default 0 (Libc.digit_of c) * 10 ^ Libc.strlen s' + decimal_value s'
  end.

Definition well_formed_entry (s : string) : bool :=
  (0 <? Libc.strlen s) && all_digits s && (decimal_value s <=? INT_MAX).

Definition is_delimiter (c : ascii) : bool := Libc.strchr Async.affinity_delim c.

(** The specification with the entries [first], then each entry of [rest]
    after the delimiter paired with it. *)
Fixpoint affinity_string (first : string) (rest : list (ascii * string)) : string :=
  match rest with
  | [] => first
  | (d, e) :: rest' => first +:+ String d (affinity_string e rest')
  end.

(** A delimiter with the well-formed entry after it. *)
Definition delimited_entry (p : ascii * string) : bool :=
  is_delimiter (fst p) && well_formed_entry (snd p).

(** The entries of an affinity string: what stands between two
    delimiters, before the first and after the last. *)
Fixpoint entries (s : string) : list string :=
  match s with
  | EmptyString => [EmptyString]
  | String c s' =>
      if is_delimiter c then EmptyString :: entries s'
      else match entries s' with
           | e :: es => String c e :: es
           | [] => [String c EmptyString]
           end
  end.

(** An entry that [atoi] reads within the range of [int], and one that
    it reads as a negative number. *)
Definition readable_entry (e : string) : bool :=
  bool_decide (is_Some (Libc.atoi e)).

Definition negative_entry (e : string) : bool :=
  match Libc.atoi e with
  | Some v => v <? 0
  | None => false
  end.

(** The entries that [strsep] has still to return. *)
Definition entries_left (tmp : option string) : list string :=
  match tmp with
  | Some s => entries s
  | None => []
  end.

(** The numbers written in an affinity string: what stands between runs
    of delimiters, that is the entries that are not empty. *)
Definition written_numbers (s : string) : list string :=
  List.filter (fun e => 0 <? Libc.strlen e) (entries s).

(** ** Histories of the two threads *)

(** What follows, in a history, the first load of [async_done] that read
    a value other than zero. *)
Fixpoint after_stop (h : list Progress.label) : option (list Progress.label) :=
  match h with
  | [] => None
  | Progress.W (Progress.Load v) :: h' =>
      if v =? 0 then after_stop h' else Some h'
  | _ :: h' => after_stop h'
  end.

(** The events of the progress thread in a history. *)
Fixpoint worker_events (h : list Progress.label) : list Progress.wevent :=
  match h with
  | [] => []
  | Progress.W e :: h' => e :: worker_events h'
  | Progress.M _ :: h' => worker_events h'
  end.

(** What precedes, in a history, the return of the join. *)
Fixpoint before_join (h : list Progress.label) : option (list Progress.label) :=
  match h with
  | [] => None
  | Progress.M Progress.Join :: _ => Some []
  | l :: h' => cons l <$> before_join h'
  end.

(** What the progress thread has done since it read the flag set, by the
    statement it is at. *)
Definition stop_phase (pc : Progress.wpc) : option (list Progress.wevent) :=
  match pc with
  | Progress.At_progress_end => Some []
  | Progress.At_cs_exit => Some [Progress.Progress_end]
  | Progress.Returned => Some [Progress.Progress_end; Progress.CS_EXIT]
  | _ => None
  end.

(** What holds of every state that the two threads reach. *)
Record invariant (s : Progress.sys) : Prop := {
  inv_stop :
    worker_events <$> after_stop (Progress.history s)
    = stop_phase (Progress.worker s);
  inv_exit :
    Progress.worker s = Progress.Returned ->
    Progress.W Progress.CS_EXIT ∈ Progress.history s;
  inv_main :
    match Progress.main s with
    | Progress.At_store =>
        Progress.async_done s = 0 /\ before_join (Progress.history s) = None
    | Progress.At_join =>
        Progress.async_done s = 1
        /\ Progress.M (Progress.Store 1) ∈ Progress.history s
        /\ before_join (Progress.history s) = None
    | Progress.Finalized =>
        Progress.async_done s = 1 /\
        exists pre, before_join (Progress.history s) = Some pre
                    /\ Progress.M (Progress.Store 1) ∈ pre
                    /\ Progress.W Progress.CS_EXIT ∈ pre
    end
}.

(** ** Inputs of the examples *)

Definition comm_example (n : Z) : MPIR_Comm :=
  {| handle := 0x44000000; ref_count := n; rank := 0; local_size := 1;
     node_comm := None |}.

Definition release_example (n : Z) : Comm.comm_state :=
  {| Comm.comms := {[ 8 := comm_example n ]}; Comm.delete_calls := [] |}.

Definition single_node_world (size rk : Z) : MPIR_Comm :=
  {| handle := 0x44000000; ref_count := 1; rank := rk; local_size := size;
     node_comm :=
       Some {| handle := 0x84000000; ref_count := 1; rank := rk;
               local_size := size; node_comm := None |} |}.

(** A configuration for the examples: one node with [size] processes,
    this one of rank [rk]; [nprocs] processors; the thread is created
    with id 7 and pinning answers [thr_err]. *)
Definition example_config (affinity : option string) (size rk nprocs : Z)
    (level thr_err : Z) : Async.config :=
  {| Async.MPIR_CVAR_ASYNC_PROGRESS := 1;
     Async.MPIR_CVAR_CH4_PROGRESS_THREAD_AFFINITY := affinity;
     Async.MPIR_CVAR_NUM_CLIQUES := 1;
     Async.MPIR_CVAR_ODD_EVEN_CLIQUES := 0;
     Async.comm_world := single_node_world size rk;
     Async.thread_provided := level;
     Async.MPL_get_nprocs := nprocs;
     Async.MPID_Thread_create := (0, 7);
     Async.MPL_thread_set_affinity := fun _ _ => thr_err |}.

(** Four processes in two cliques; this one has rank 3 in the world
    and rank 1 on its node; eight processors. *)
Definition clique_config : Async.config :=
  {| Async.MPIR_CVAR_ASYNC_PROGRESS := 1;
     Async.MPIR_CVAR_CH4_PROGRESS_THREAD_AFFINITY := None;
     Async.MPIR_CVAR_NUM_CLIQUES := 2;
     Async.MPIR_CVAR_ODD_EVEN_CLIQUES := 0;
     Async.comm_world :=
       {| handle := 0x44000000; ref_count := 1; rank := 3; local_size := 4;
          node_comm :=
            Some {| handle := 0x84000000; ref_count := 1; rank := 1;
                    local_size := 2; node_comm := None |} |};
     Async.thread_provided := 3;
     Async.MPL_get_nprocs := 8;
     Async.MPID_Thread_create := (0, 7);
     Async.MPL_thread_set_affinity := fun _ _ => 0 |}.

Definition clique_started : Async.state :=
  spawned 7 [Async.Ev_malloc 4; Async.Ev_thread_create 0 7;
             Async.Ev_set_affinity 7 3 4 0; Async.Ev_free]
    Async.initial_state.

(** ** Vocabulary of the further properties *)

(** [k] calls of [MPIR_Comm_release] on the same communicator, each on
    the state that the one before has left; the error code is that of
    the last call. *)
Fixpoint release_times
    (delete_body : Z -> gmap Z MPIR_Comm -> Z * gmap Z MPIR_Comm)
    (k : nat) (comm_ptr : Z) (s : Comm.comm_state)
  : option (Z * Comm.comm_state) :=
  match k with
  | O => Some (MPI_SUCCESS, s)
  | S k' =>
      '(_, s1) ← release_times delete_body k' comm_ptr s;
      Comm.MPIR_Comm_release delete_body comm_ptr s1
  end.

(** [MPIR_Comm_add_ref] on the state of the communicators. *)
Definition add_ref_state (comm_ptr : Z) (s : Comm.comm_state)
  : option Comm.comm_state :=
  h ← Comm.MPIR_Comm_add_ref comm_ptr (Comm.comms s);
  Some {| Comm.comms := h; Comm.delete_calls := Comm.delete_calls s |}.

(** An entry that the parser takes: [atoi] reads it, within [int], as a
    number that is not negative; and the number read. *)
Definition accepted_entry (e : string) : bool :=
  match Libc.atoi e with
  | Some v => 0 <=? v
  | None => false
  end.

Definition entry_value (e : string) : Z := default 0 (Libc.atoi e).

(** The two messages of the loop of the parser. *)
Definition is_loop_message (m : Async.message) : bool :=
  match m with
  | Async.Msg_unexpected_proc_id _ _ => true
  | Async.Msg_unexpected_end _ _ _ => true
  | _ => false
  end.

(** [k] turns of the loop of [progress_fn] that found the flag clear. *)
Fixpoint loop_turns (k : nat) : list Progress.wevent :=
  match k with
  | O => []
  | S k' =>
      Progress.Load 0 :: Progress.Progress_test :: Progress.CS_YIELD
      :: loop_turns k'
  end.

(** A whole run of [progress_fn]: [k] turns, then the load that read
    [v], which is not zero. *)
Definition complete_run (k : nat) (v : Z) : list Progress.wevent :=
  [Progress.CS_ENTER; Progress.Progress_start] ++ loop_turns k
  ++ [Progress.Load v; Progress.Progress_end; Progress.CS_EXIT].

(** What [progress_fn] has done when it is at [pc], after [k] whole turns
    of its loop. *)
Definition run_up_to (pc : Progress.wpc) (k : nat) (v : Z)
  : list Progress.wevent :=
  match pc with
  | Progress.At_cs_enter => []
  | Progress.At_progress_start => [Progress.CS_ENTER]
  | Progress.At_while =>
      [Progress.CS_ENTER; Progress.Progress_start] ++ loop_turns k
  | Progress.At_progress_test =>
      [Progress.CS_ENTER; Progress.Progress_start] ++ loop_turns k
      ++ [Progress.Load 0]
  | Progress.At_cs_yield =>
      [Progress.CS_ENTER; Progress.Progress_start] ++ loop_turns k
      ++ [Progress.Load 0; Progress.Progress_test]
  | Progress.At_progress_end =>
      [Progress.CS_ENTER; Progress.Progress_start] ++ loop_turns k
      ++ [Progress.Load v]
  | Progress.At_cs_exit =>
      [Progress.CS_ENTER; Progress.Progress_start] ++ loop_turns k
      ++ [Progress.Load v; Progress.Progress_end]
  | Progress.Returned => complete_run k v
  end.

(** The events of the thread are those of a run up to where it is. *)
Definition on_a_run (s : Progress.sys) : Prop :=
  exists (k : nat) (v : Z),
    v <> 0 /\
    worker_events (Progress.history s) = run_up_to (Progress.worker s) k v.

(** Both threads have returned. *)
Definition finished (s : Progress.sys) : Prop :=
  Progress.worker s = Progress.Returned /\ Progress.main s = Progress.Finalized.

(** * Properties *)

(** ** Communicator release *)

Section ReleaseFacts.
Import Comm.

Lemma release_ref_decrements (p : Z) (h : gmap Z MPIR_Comm) (c : MPIR_Comm) :
  h !! p = Some c ->
  in_int_range (ref_count c - 1) = true ->
  MPIR_Comm_release_ref p h =
    Some (ref_count c - 1, <[p := set_ref_count (ref_count c - 1) c]> h).
Proof.
  intros Hp Hr. unfold MPIR_Comm_release_ref, MPIR_Object_release_ref.
  rewrite Hp. simpl. now rewrite Hr.
Qed.

(** C1: [MPIR_Comm_release] decrements the reference count of the
    communicator once; [MPIR_Comm_delete_internal] is called (once, on
    the object with the decremented count) if and only if the count
    left is zero, and then its error code is returned; when references
    remain nothing is deleted and the result is [MPI_SUCCESS]. *)
Theorem MPIR_Comm_release_spec
    (delete_body : Z -> gmap Z MPIR_Comm -> Z * gmap Z MPIR_Comm)
    (comm_ptr : Z) (s : comm_state) (c : MPIR_Comm) :
  comms s !! comm_ptr = Some c ->
  in_int_range (ref_count c - 1) = true ->
  let h1 := <[comm_ptr := set_ref_count (ref_count c - 1) c]> (comms s) in
  exists e s',
    MPIR_Comm_release delete_body comm_ptr s = Some (e, s') /\
    (delete_calls s' = delete_calls s ++ [comm_ptr] <-> ref_count c - 1 = 0) /\
    (ref_count c - 1 = 0 -> (e, comms s') = delete_body comm_ptr h1) /\
    (ref_count c - 1 <> 0 ->
       e = MPI_SUCCESS /\ comms s' = h1 /\ delete_calls s' = delete_calls s).
Proof.
  intros Hp Hr h1. unfold MPIR_Comm_release.
  rewrite (release_ref_decrements _ _ _ Hp Hr). simpl. fold h1.
  destruct (Z.eqb_spec (ref_count c - 1) 0) as [Hz | Hnz].
  - unfold MPIR_Comm_delete_internal. simpl.
    destruct (delete_body comm_ptr h1) as [e h2] eqn:Hd.
    exists e, {| comms := h2; delete_calls := delete_calls s ++ [comm_ptr] |}.
    simpl. split; [reflexivity |]. split; [tauto |].
    split; [intros _; reflexivity | intros Hne; contradiction].
  - exists MPI_SUCCESS, {| comms := h1; delete_calls := delete_calls s |}.
    simpl. split; [reflexivity |]. split; [| split; [contradiction | auto]].
    split; [| contradiction].
    intros Heq. exfalso.
    apply (f_equal length) in Heq. rewrite length_app in Heq.
    simpl in Heq. lia.
Qed.

End ReleaseFacts.



Lemma MPIR_Comm_release_spec_witness :
  exists e s',
    Comm.MPIR_Comm_release (fun p h => (MPI_SUCCESS, delete p h)) 8
      (release_example 1) = Some (e, s') /\
    (Comm.delete_calls s' = [] ++ [8] <-> 1 - 1 = 0) /\
    (1 - 1 = 0 ->
       (e, Comm.comms s') =
       (MPI_SUCCESS,
        delete 8 (<[8 := set_ref_count (1 - 1) (comm_example 1)]>
                    ({[ 8 := comm_example 1 ]} : gmap Z MPIR_Comm)))) /\
    (1 - 1 <> 0 ->
       e = MPI_SUCCESS /\
       Comm.comms s' = <[8 := set_ref_count (1 - 1) (comm_example 1)]>
                         ({[ 8 := comm_example 1 ]} : gmap Z MPIR_Comm) /\
       Comm.delete_calls s' = []).
Proof.
  apply (MPIR_Comm_release_spec (fun p h => (MPI_SUCCESS, delete p h)) 8
           (release_example 1) (comm_example 1)).
  - reflexivity.
  - reflexivity.
Defined.

(** ** Entry points of the library initialisation and finalisation *)

Section EntryFacts.
Import Async.
Context (dev : Device).

Lemma emit_fields (evs : list event) (s : state) :
  MPIR_async_thread_initialized (emit evs s) = MPIR_async_thread_initialized s /\
  progress_thread_id (emit evs s) = progress_thread_id s /\
  async_done (emit evs s) = async_done s /\
  running (emit evs s) = running s /\
  trace (emit evs s) = trace s ++ evs.
Proof. now destruct s. Qed.

Lemma MPII_finalize_async_not_initialized (cfg : config) (s : state) :
  MPIR_async_thread_initialized s = 0 ->
  MPII_finalize_async cfg s = Some (MPI_SUCCESS, s).
Proof. intros Hs. unfold MPII_finalize_async. now rewrite Hs. Qed.

Lemma MPII_init_async_not_requested (cfg : config) (s : state) :
  MPIR_CVAR_ASYNC_PROGRESS cfg = 0 ->
  MPII_init_async cfg s = Some (MPI_SUCCESS, s).
Proof. intros Hc. unfold MPII_init_async. now rewrite Hc. Qed.

End EntryFacts.

(** C2: when async progress is requested and the thread level provided is
    below [MPI_THREAD_MULTIPLE], [MPII_init_async] only prints the
    warning: no thread is created, the flag
    [MPIR_async_thread_initialized] stays unset and the result is
    [MPI_SUCCESS]; [MPII_finalize_async] called next returns [MPI_SUCCESS]
    and changes nothing. *)
Theorem MPII_init_async_degrades (dev : Async.Device)
    (cfg : Async.config) (s : Async.state) :
  Async.MPIR_CVAR_ASYNC_PROGRESS cfg <> 0 ->
  Async.thread_provided cfg < MPI_THREAD_MULTIPLE ->
  Async.MPIR_async_thread_initialized s = 0 ->
  exists s',
    Async.MPII_init_async cfg s = Some (MPI_SUCCESS, s') /\
    Async.trace s' = Async.trace s ++ [Async.Ev_printf Async.Msg_no_thread_multiple] /\
    Async.running s' = Async.running s /\
    Async.progress_thread_id s' = Async.progress_thread_id s /\
    Async.async_done s' = Async.async_done s /\
    Async.MPIR_async_thread_initialized s' = 0 /\
    Async.MPII_finalize_async cfg s' = Some (MPI_SUCCESS, s').
Proof.
  intros Hreq Hlevel Hflag.
  exists (Async.emit [Async.Ev_printf Async.Msg_no_thread_multiple] s).
  destruct (emit_fields [Async.Ev_printf Async.Msg_no_thread_multiple] s)
    as (Hi & Ht & Hd & Hr & Htr).
  split.
  - unfold Async.MPII_init_async.
    apply Z.eqb_neq in Hreq. rewrite Hreq. simpl.
    assert (Hne : (Async.thread_provided cfg =? MPI_THREAD_MULTIPLE) = false)
      by (apply Z.eqb_neq; lia).
    now rewrite Hne.
  - rewrite Htr, Hr, Ht, Hd, Hi, Hflag.
    repeat (split; [reflexivity |]).
    apply MPII_finalize_async_not_initialized. congruence.
Qed.



Lemma MPII_init_async_degrades_witness :
  exists s',
    Async.MPII_init_async (H := Async.forwarding_device)
      (example_config None 2 0 4 2 0) Async.initial_state
    = Some (MPI_SUCCESS, s') /\
    Async.trace s' = [] ++ [Async.Ev_printf Async.Msg_no_thread_multiple] /\
    Async.running s' = [] /\
    Async.progress_thread_id s' = 0 /\
    Async.async_done s' = 0 /\
    Async.MPIR_async_thread_initialized s' = 0 /\
    Async.MPII_finalize_async (H := Async.forwarding_device)
      (example_config None 2 0 4 2 0) s' = Some (MPI_SUCCESS, s').
Proof.
  apply (MPII_init_async_degrades Async.forwarding_device
           (example_config None 2 0 4 2 0) Async.initial_state).
  - simpl. lia.
  - simpl. unfold MPI_THREAD_MULTIPLE. lia.
  - reflexivity.
Defined.

(** C10: in a build where the condition of the [#if] is false
    ([MPICH_IS_THREADED] not defined, or a thread level other than
    [MPI_THREAD_MULTIPLE]) the four entry points return [MPI_SUCCESS] and
    leave the state as it is, whatever the configuration and the state. *)
Theorem unthreaded_build_entry_points (dev : Async.Device) (b : Build.build)
    (cfg : Async.config) (s : Async.state) :
  Build.threaded b = false ->
  Build.MPIR_Init_async_thread b cfg s = Some (MPI_SUCCESS, s) /\
  Build.MPIR_Finalize_async_thread b cfg s = Some (MPI_SUCCESS, s) /\
  Build.MPII_init_async b cfg s = Some (MPI_SUCCESS, s) /\
  Build.MPII_finalize_async b cfg s = Some (MPI_SUCCESS, s).
Proof.
  intros Hb.
  unfold Build.MPIR_Init_async_thread, Build.MPIR_Finalize_async_thread,
    Build.MPII_init_async, Build.MPII_finalize_async.
  rewrite Hb. repeat split.
Qed.

Lemma unthreaded_build_entry_points_witness :
  let b := {| Build.MPICH_IS_THREADED := true; Build.MPICH_THREAD_LEVEL := 2 |} in
  let cfg := example_config (Some "0") 2 0 4 3 1 in
  let s := Async.initial_state in
  Build.MPIR_Init_async_thread b cfg s = Some (MPI_SUCCESS, s) /\
  Build.MPIR_Finalize_async_thread b cfg s = Some (MPI_SUCCESS, s) /\
  Build.MPII_init_async (H := Async.forwarding_device) b cfg s = Some (MPI_SUCCESS, s) /\
  Build.MPII_finalize_async (H := Async.forwarding_device) b cfg s = Some (MPI_SUCCESS, s).
Proof.
  apply (unthreaded_build_entry_points Async.forwarding_device
           {| Build.MPICH_IS_THREADED := true; Build.MPICH_THREAD_LEVEL := 2 |}
           (example_config (Some "0") 2 0 4 3 1) Async.initial_state).
  reflexivity.
Defined.

(** ** The affinity table *)

Section ArrayFacts.
Import Async.

Lemma array_set_in_range (a : list (option Z)) (i v : Z) :
  0 <= i < Z.of_nat (length a) ->
  array_set a i v = Some (<[Z.to_nat i := Some v]> a).
Proof.
  intros [Hlo Hhi]. unfold array_set.
  apply Z.leb_le in Hlo. apply Z.ltb_lt in Hhi.
  now rewrite Hlo, Hhi.
Qed.

Lemma array_get_insert_eq (a : list (option Z)) (i v : Z) :
  0 <= i < Z.of_nat (length a) ->
  array_get (<[Z.to_nat i := Some v]> a) i = Some v.
Proof.
  intros [Hlo Hhi]. unfold array_get.
  destruct (Z.ltb_spec i 0); [lia |].
  rewrite list_lookup_insert_eq by lia. reflexivity.
Qed.

Lemma array_get_insert_ne (a : list (option Z)) (i j v : Z) :
  0 <= i -> 0 <= j -> i <> j ->
  array_get (<[Z.to_nat i := Some v]> a) j = array_get a j.
Proof.
  intros Hi Hj Hne. unfold array_get.
  destruct (Z.ltb_spec j 0); [reflexivity |].
  rewrite list_lookup_insert_ne by lia. reflexivity.
Qed.

Lemma to_size_t_small (z : Z) : 0 <= z < 2 ^ 64 -> Libc.to_size_t z = z.
Proof. intros Hz. unfold Libc.to_size_t. now apply Z.mod_small. Qed.

Lemma to_int_small (z : Z) : - 2 ^ 31 <= z < 2 ^ 31 -> Libc.to_int z = z.
Proof.
  intros Hz. unfold Libc.to_int.
  rewrite Z.mod_small by lia. lia.
Qed.


Lemma default_affinity_loop_spec (P : Z) :
  1 <= P <= INT_MAX ->
  forall (n : nat) (i : Z) (a : list (option Z)),
    0 <= i ->
    i + Z.of_nat n <= Z.of_nat (length a) ->
    i + Z.of_nat n <= INT_MAX ->
    (forall j, 0 <= j < i -> array_get a j = Some (default_proc P j)) ->
    exists a',
      default_affinity_loop n i P a = Some a' /\
      length a' = length a /\
      (forall j, 0 <= j < i + Z.of_nat n ->
                 array_get a' j = Some (default_proc P j)).
Proof.
  unfold INT_MAX. intros HP n.
  induction n as [| n IH]; intros i a Hi Hlen Hmax Hdone.
  - exists a. simpl. repeat split; [].
    intros j Hj. apply Hdone. lia.
  - cbn [default_affinity_loop].
    rewrite to_size_t_small by lia.
    assert (Hset : forall v, exists a1,
               array_set a i v = Some a1 /\ length a1 = length a /\
               array_get a1 i = Some v /\
               (forall j, 0 <= j < i -> array_get a1 j = array_get a j)).
    { intros v. exists (<[Z.to_nat i := Some v]> a).
      split; [apply array_set_in_range; lia |].
      split; [apply length_insert |].
      split; [apply array_get_insert_eq; lia |].
      intros j Hj. apply array_get_insert_ne; lia. }
    assert (Hnext : forall a1,
               length a1 = length a ->
               (forall j, 0 <= j < i + 1 ->
                          array_get a1 j = Some (default_proc P j)) ->
               exists a',
                 default_affinity_loop n (i + 1) P a1 = Some a' /\
                 length a' = length a /\
                 (forall j, 0 <= j < i + Z.of_nat (S n) ->
                            array_get a' j = Some (default_proc P j))).
    { intros a1 Hl1 Hget1.
      destruct (IH (i + 1) a1) as (a' & Hrun & Hl' & Hget');
        try lia; try assumption.
      exists a'. split; [assumption |]. split; [congruence |].
      intros j Hj. apply Hget'. lia. }
    destruct (Z.ltb_spec i P) as [Hlt | Hge].
    + rewrite to_size_t_small, to_int_small by lia.
      destruct (Hset (P - i - 1)) as (a1 & -> & Hl & Hg & Hold).
      cbn [mbind option_bind]. apply Hnext; [assumption |].
      intros j Hj. destruct (Z.eq_dec j i) as [-> | Hne].
      * rewrite Hg. unfold default_proc. rewrite Z.mod_small by lia.
        f_equal. lia.
      * rewrite Hold by lia. apply Hdone. lia.
    + destruct (Z.eqb_spec P 0) as [H0 | _]; [lia |].
      pose proof (Z.mod_pos_bound i P ltac:(lia)) as Hmod.
      rewrite (Hdone (i mod P)) by lia. cbn [mbind option_bind].
      destruct (Hset (default_proc P (i mod P))) as (a1 & -> & Hl & Hg & Hold).
      cbn [mbind option_bind]. apply Hnext; [assumption |].
      intros j Hj. destruct (Z.eq_dec j i) as [-> | Hne].
      * rewrite Hg. unfold default_proc. now rewrite Z.mod_mod by lia.
      * rewrite Hold by lia. apply Hdone. lia.
Qed.

End ArrayFacts.

Section DefaultAffinityFacts.
Import Async.

Lemma strlen_nonneg (s : string) : 0 <= Libc.strlen s.
Proof. induction s as [| c s IH]; simpl; lia. Qed.

Lemma length_MPL_malloc (n : Z) : length (MPL_malloc n) = Z.to_nat n.
Proof. apply length_replicate. Qed.

(** Without an affinity string the parser runs the default loop. *)
Lemma parse_without_affinity (cfg : config) (a : list (option Z)) (N : Z) :
  affinity_given cfg = false ->
  MPIDI_parse_progress_thread_affinity cfg a N =
  (a' ← default_affinity_loop (Z.to_nat N) 0
          (Libc.to_size_t (MPL_get_nprocs cfg)) a;
   Some (MPI_SUCCESS, a', [])).
Proof.
  unfold affinity_given, MPIDI_parse_progress_thread_affinity.
  destruct (MPIR_CVAR_CH4_PROGRESS_THREAD_AFFINITY cfg) as [aff |];
    [| reflexivity].
  intros Hlen. apply Z.ltb_ge in Hlen.
  pose proof (strlen_nonneg aff).
  replace (Libc.strlen aff) with 0 by lia. reflexivity.
Qed.

End DefaultAffinityFacts.

(** C7: without an affinity string (null or empty), for [N] thread slots
    and [P >= 1] processors the table is filled, slot [t < P] with
    processor [P - 1 - t], and slot [t >= P] with what slot [t mod P]
    holds, which is [P - 1 - t mod P]. *)
Theorem default_affinity_assignment (cfg : Async.config) (N : Z) :
  Async.affinity_given cfg = false ->
  1 <= Async.MPL_get_nprocs cfg <= INT_MAX ->
  N <= INT_MAX ->
  exists a,
    Async.MPIDI_parse_progress_thread_affinity cfg (Async.MPL_malloc N) N
      = Some (MPI_SUCCESS, a, []) /\
    length a = Z.to_nat N /\
    (forall t, 0 <= t < N -> t < Async.MPL_get_nprocs cfg ->
       Async.array_get a t = Some (Async.MPL_get_nprocs cfg - 1 - t)) /\
    (forall t, 0 <= t < N -> Async.MPL_get_nprocs cfg <= t ->
       Async.array_get a t = Async.array_get a (t mod Async.MPL_get_nprocs cfg) /\
       Async.array_get a t =
         Some (Async.MPL_get_nprocs cfg - 1 - t mod Async.MPL_get_nprocs cfg)).
Proof.
  intros Hnone HP HN. set (P := Async.MPL_get_nprocs cfg) in *.
  rewrite parse_without_affinity by assumption. fold P.
  assert (HPmax : INT_MAX < 2 ^ 64) by (unfold INT_MAX; lia).
  rewrite to_size_t_small by lia.
  destruct (default_affinity_loop_spec P HP (Z.to_nat N) 0 (Async.MPL_malloc N))
    as (a & Hrun & Hlen & Hget).
  - lia.
  - rewrite length_MPL_malloc. lia.
  - lia.
  - intros j Hj. lia.
  - exists a. rewrite Hrun. cbn [mbind option_bind].
    rewrite length_MPL_malloc in Hlen.
    split; [reflexivity |]. split; [assumption |].
    assert (Hslot : forall t, 0 <= t < N ->
              Async.array_get a t = Some (default_proc P t)).
    { intros t Ht. apply Hget. lia. }
    split.
    + intros t Ht HtP. rewrite Hslot by assumption.
      unfold default_proc. now rewrite Z.mod_small by lia.
    + intros t Ht HtP.
      pose proof (Z.mod_pos_bound t P ltac:(lia)) as Hmod.
      rewrite !Hslot by lia. unfold default_proc.
      now rewrite Z.mod_mod by lia.
Qed.

Lemma default_affinity_assignment_witness :
  exists a,
    Async.MPIDI_parse_progress_thread_affinity
      (example_config None 5 0 3 3 0) (Async.MPL_malloc 5) 5
      = Some (MPI_SUCCESS, a, []) /\
    length a = Z.to_nat 5 /\
    (forall t, 0 <= t < 5 -> t < 3 -> Async.array_get a t = Some (3 - 1 - t)) /\
    (forall t, 0 <= t < 5 -> 3 <= t ->
       Async.array_get a t = Async.array_get a (t mod 3) /\
       Async.array_get a t = Some (3 - 1 - t mod 3)).
Proof.
  apply (default_affinity_assignment (example_config None 5 0 3 3 0) 5).
  - reflexivity.
  - simpl. unfold INT_MAX. lia.
  - unfold INT_MAX. lia.
Defined.

Example default_affinity_five_slots_three_processors :
  Async.MPIDI_parse_progress_thread_affinity
    (example_config (Some "") 5 0 3 3 0) (Async.MPL_malloc 5) 5
  = Some (MPI_SUCCESS, [Some 2; Some 1; Some 0; Some 2; Some 1], []).
Proof. reflexivity. Qed.

(** ** Parsing an affinity string *)


Section ParseFacts.
Import Async.

Lemma digit_not_delimiter (c : ascii) :
  is_Some (Libc.digit_of c) -> is_delimiter c = false.
Proof.
  intros [d Hd]. unfold is_delimiter, affinity_delim. cbn [Libc.strchr].
  repeat match goal with
         | |- context [Ascii.eqb c ?k] =>
             destruct (Ascii.eqb_spec c k) as [-> | _];
             [vm_compute in Hd; discriminate |]
         end.
  reflexivity.
Qed.

Lemma append_nil (s : string) : EmptyString +:+ s = s.
Proof. reflexivity. Qed.

Lemma append_cons (c : ascii) (a s : string) :
  String c a +:+ s = String c (a +:+ s).
Proof. reflexivity. Qed.

Lemma strsep_scan_token (tok : string) (d : ascii) (s : string) :
  all_digits tok = true ->
  is_delimiter d = true ->
  Libc.strsep_scan (tok +:+ String d s) affinity_delim = (tok, Some s).
Proof.
  intros Htok Hd. unfold is_delimiter in Hd.
  induction tok as [| c tok IH];
    rewrite ?append_nil, ?append_cons; cbn -[affinity_delim].
  - now rewrite Hd.
  - cbn in Htok. apply andb_prop in Htok as [Hc Htok].
    apply bool_decide_eq_true in Hc.
    pose proof (digit_not_delimiter c Hc) as Hnd.
    unfold is_delimiter in Hnd. rewrite Hnd.
    now rewrite (IH Htok).
Qed.

Lemma strsep_scan_last (tok : string) :
  all_digits tok = true ->
  Libc.strsep_scan tok affinity_delim = (tok, None).
Proof.
  intros Htok.
  induction tok as [| c tok IH]; cbn -[affinity_delim]; [reflexivity |].
  cbn in Htok. apply andb_prop in Htok as [Hc Htok].
  apply bool_decide_eq_true in Hc.
  pose proof (digit_not_delimiter c Hc) as Hnd.
  unfold is_delimiter in Hnd. rewrite Hnd.
  now rewrite (IH Htok).
Qed.

Lemma decimal_value_nonneg (s : string) :
  all_digits s = true -> 0 <= decimal_value s.
Proof.
  induction s as [| c s IH]; cbn; [lia |].
  intros H. apply andb_prop in H as [Hc Hs].
  apply bool_decide_eq_true in Hc. destruct Hc as [d Hd]. rewrite Hd. cbn.
  assert (0 <= d).
  { unfold Libc.digit_of in Hd.
    destruct (_ && _) eqn:Hr in Hd; [| discriminate].
    injection Hd as <-. apply andb_prop in Hr as [Hr _].
    apply Z.leb_le in Hr. lia. }
  pose proof (strlen_nonneg s).
  specialize (IH Hs). nia.
Qed.

Lemma atoi_digits_value (s : string) :
  all_digits s = true ->
  forall acc, Libc.atoi_digits acc s = acc * 10 ^ Libc.strlen s + decimal_value s.
Proof.
  induction s as [| c s IH]; intros H acc; cbn; [lia |].
  cbn in H. apply andb_prop in H as [Hc Hs].
  apply bool_decide_eq_true in Hc. destruct Hc as [d Hd]. rewrite Hd. cbn.
  rewrite (IH Hs). pose proof (strlen_nonneg s).
  rewrite Z.pow_add_r by lia. lia.
Qed.

(** On a string that starts with a digit [atoi] skips nothing and reads
    no sign. *)
Lemma atoi_digit_head (c : ascii) (s : string) :
  is_Some (Libc.digit_of c) ->
  Libc.atoi (String c s) =
  if in_int_range (Libc.atoi_digits 0 (String c s))
  then Some (Libc.atoi_digits 0 (String c s)) else None.
Proof.
  intros [d Hd].
  destruct c as [[] [] [] [] [] [] [] []]; vm_compute in Hd;
    try discriminate; reflexivity.
Qed.

Lemma atoi_well_formed (e : string) :
  well_formed_entry e = true -> Libc.atoi e = Some (decimal_value e).
Proof.
  unfold well_formed_entry. intros H.
  apply andb_prop in H as [H Hmax]. apply andb_prop in H as [Hlen Hdig].
  apply Z.leb_le in Hmax.
  destruct e as [| c e]; [discriminate |].
  pose proof (decimal_value_nonneg _ Hdig) as Hpos.
  assert (Hc : is_Some (Libc.digit_of c)).
  { cbn in Hdig. apply andb_prop in Hdig as [Hc _].
    now apply bool_decide_eq_true in Hc. }
  rewrite (atoi_digit_head c e Hc), (atoi_digits_value _ Hdig 0).
  replace (0 * 10 ^ Libc.strlen (String c e) + decimal_value (String c e))
    with (decimal_value (String c e)) by lia.
  unfold in_int_range.
  destruct (Z.leb_spec INT_MIN (decimal_value (String c e))) as [_ | Hlt];
    [| unfold INT_MIN in Hlt; lia].
  destruct (Z.leb_spec (decimal_value (String c e)) INT_MAX) as [_ | Hgt];
    [reflexivity | lia].
Qed.

End ParseFacts.

Section ParseLoopFacts.
Import Async.

Lemma array_set_next (done tl : list (option Z)) (c : option Z) (v : Z) :
  array_set (done ++ c :: tl) (Z.of_nat (length done)) v =
  Some ((done ++ [Some v]) ++ tl).
Proof.
  rewrite array_set_in_range by (rewrite length_app; simpl; lia).
  rewrite Nat2Z.id. replace (length done) with (length done + 0)%nat at 1 by lia.
  rewrite insert_app_r. simpl. now rewrite <- app_assoc.
Qed.


Lemma well_formed_entry_digits (e : string) :
  well_formed_entry e = true -> all_digits e = true.
Proof.
  unfold well_formed_entry. intros H.
  apply andb_prop in H as [H _]. now apply andb_prop in H as [_ H].
Qed.

(** One iteration of the loop on a well-formed entry. *)
Lemma parse_affinity_loop_step (n : nat) (rc : Z) (tok : string)
    (tmp tmp' : option string) (done tl : list (option Z)) (c : option Z)
    (N : Z) (aff : string) :
  Libc.MPL_strsep tmp affinity_delim = (Some tok, tmp') ->
  well_formed_entry tok = true ->
  parse_affinity_loop (S n) (Z.of_nat (length done)) rc tmp
    (done ++ c :: tl) N aff =
  parse_affinity_loop n (Z.of_nat (length (done ++ [Some (decimal_value tok)])))
    (rc + 1) tmp' ((done ++ [Some (decimal_value tok)]) ++ tl) N aff.
Proof.
  intros Hsep Hwf. cbn [parse_affinity_loop]. rewrite Hsep.
  rewrite (atoi_well_formed _ Hwf). cbn [mbind option_bind].
  pose proof (decimal_value_nonneg _ (well_formed_entry_digits _ Hwf)) as Hpos.
  destruct (Z.ltb_spec (decimal_value tok) 0) as [Hneg | _]; [lia |].
  rewrite array_set_next. cbn [mbind option_bind].
  rewrite length_app. cbn [length].
  now replace (Z.of_nat (length done + 1)) with (Z.of_nat (length done) + 1) by lia.
Qed.

Lemma parse_affinity_loop_well_formed (rest : list (ascii * string)) :
  forall (first : string) (rc : Z) (done : list (option Z)) (N : Z)
         (aff : string),
    well_formed_entry first = true ->
    forallb delimited_entry rest = true ->
    parse_affinity_loop (S (length rest)) (Z.of_nat (length done)) rc
      (Some (affinity_string first rest))
      (done ++ replicate (S (length rest)) None) N aff =
    Some (MPI_SUCCESS, rc + Z.of_nat (S (length rest)),
          done ++ map (fun e => Some (decimal_value e)) (first :: map snd rest),
          []).
Proof.
  induction rest as [| [d e] rest IH]; intros first rc done N aff Hfirst Hrest.
  - cbn [length replicate affinity_string].
    rewrite (parse_affinity_loop_step 0 rc first _ None); try assumption.
    + cbn. now rewrite app_nil_r.
    + cbn [Libc.MPL_strsep].
      now rewrite (strsep_scan_last _ (well_formed_entry_digits _ Hfirst)).
  - cbn [forallb] in Hrest. apply andb_prop in Hrest as [Hde Hrest].
    unfold delimited_entry in Hde. cbn [fst snd] in Hde.
    apply andb_prop in Hde as [Hd He].
    cbn [length affinity_string]. cbn [replicate].
    rewrite (parse_affinity_loop_step _ rc first _
               (Some (affinity_string e rest))); try assumption.
    + rewrite (IH e (rc + 1) _ N aff He Hrest).
      cbn [map snd]. rewrite <- app_assoc. cbn [app].
      replace (rc + 1 + Z.of_nat (S (length rest)))
        with (rc + Z.of_nat (S (S (length rest)))) by lia.
      reflexivity.
    + cbn [Libc.MPL_strsep].
      now rewrite (strsep_scan_token _ _ _
                     (well_formed_entry_digits _ Hfirst) Hd).
Qed.

Lemma strlen_append (a b : string) :
  Libc.strlen (a +:+ b) = Libc.strlen a + Libc.strlen b.
Proof.
  induction a as [| c a IH]; rewrite ?append_nil, ?append_cons; cbn; lia.
Qed.

Lemma strlen_affinity_string (first : string) (rest : list (ascii * string)) :
  Libc.strlen first <= Libc.strlen (affinity_string first rest).
Proof.
  destruct rest as [| [d e] rest]; cbn [affinity_string]; [lia |].
  rewrite strlen_append. cbn [Libc.strlen].
  pose proof (strlen_nonneg (affinity_string e rest)). lia.
Qed.

End ParseLoopFacts.

(** C8, as the claim states it, fails: "0, 1" is made of the two
    integers 0 and 1, separated by a comma and a space; with 2 threads
    the parser returns [MPI_SUCCESS], but [strsep] returns the empty
    entry between the comma and the space, [atoi] reads it as 0, and the
    table is [0, 0]: the second slot does not get processor 1. *)
Lemma adjacent_delimiters_make_an_entry :
  written_numbers "0, 1" = ["0"; "1"] /\
  forallb well_formed_entry (written_numbers "0, 1") = true /\
  forallb is_delimiter [","%char; " "%char] = true /\
  Async.MPIDI_parse_progress_thread_affinity
    (example_config (Some "0, 1") 2 0 4 3 0) (Async.MPL_malloc 2) 2
  = Some (MPI_SUCCESS, [Some 0; Some 0], []) /\
  [Some 0; Some 0]
  <> map (fun e => Some (decimal_value e)) (written_numbers "0, 1").
Proof.
  split; [reflexivity |]. split; [reflexivity |]. split; [reflexivity |].
  split; [reflexivity |]. vm_compute. discriminate.
Qed.

(** C8, amended: a specification of [N] entries, each a run of decimal
    digits that an [int] holds, with exactly one delimiter character
    (comma, space, tab, newline) between two entries, parses with [N]
    threads to [MPI_SUCCESS] and to the table of the [N] values in the
    order written. *)
Theorem parse_well_formed_affinity (cfg : Async.config) (first : string)
    (rest : list (ascii * string)) :
  Async.MPIR_CVAR_CH4_PROGRESS_THREAD_AFFINITY cfg
    = Some (affinity_string first rest) ->
  well_formed_entry first = true ->
  forallb delimited_entry rest = true ->
  let N := Z.of_nat (S (length rest)) in
  Async.MPIDI_parse_progress_thread_affinity cfg (Async.MPL_malloc N) N =
  Some (MPI_SUCCESS,
        map (fun e => Some (decimal_value e)) (first :: map snd rest), []).
Proof.
  intros Haff Hfirst Hrest N.
  unfold Async.MPIDI_parse_progress_thread_affinity. rewrite Haff.
  assert (Hlen : 0 < Libc.strlen (affinity_string first rest)).
  { pose proof (strlen_affinity_string first rest).
    unfold well_formed_entry in Hfirst.
    apply andb_prop in Hfirst as [Hfirst _].
    apply andb_prop in Hfirst as [Hfirst _].
    apply Z.ltb_lt in Hfirst. lia. }
  destruct (Z.eqb_spec (Libc.strlen (affinity_string first rest)) 0) as [H0 | _];
    [lia |].
  unfold N, Async.MPL_malloc. rewrite Nat2Z.id.
  pose proof (parse_affinity_loop_well_formed rest first 0 [] N
                (affinity_string first rest) Hfirst Hrest) as Hloop.
  cbn [length app] in Hloop. change (Z.of_nat 0) with 0 in Hloop.
  fold N. rewrite Hloop. cbn [mbind option_bind].
  change (MPI_SUCCESS =? MPI_SUCCESS) with true. cbv iota.
  fold N. destruct (Z.ltb_spec (0 + N) N) as [Hlt | _]; [lia | reflexivity].
Qed.

Lemma parse_well_formed_affinity_witness :
  Async.MPIDI_parse_progress_thread_affinity
    (example_config (Some "0,1") 2 0 4 3 0) (Async.MPL_malloc 2) 2 =
  Some (MPI_SUCCESS, [Some 0; Some 1], []).
Proof.
  apply (parse_well_formed_affinity (example_config (Some "0,1") 2 0 4 3 0)
           "0" [(","%char, "1")]).
  - reflexivity.
  - reflexivity.
  - reflexivity.
Defined.

Example parse_tab_and_newline :
  Async.MPIDI_parse_progress_thread_affinity
    (example_config (Some (affinity_string "12" [("009"%char, "007"); ("010"%char, "3")]))
       3 0 4 3 0) (Async.MPL_malloc 3) 3 =
  Some (MPI_SUCCESS, [Some 12; Some 7; Some 3], []).
Proof. reflexivity. Qed.

(** ** Starting the progress thread *)


Section InitFacts.
Import Async.

Lemma emit_emit (a b : list event) (s : state) :
  emit b (emit a s) = emit (a ++ b) s.
Proof. unfold emit. simpl. now rewrite app_assoc. Qed.

Lemma num_cliques_override (cfg : config) :
  (1 <? num_cliques cfg) = clique_override cfg.
Proof.
  unfold num_cliques, clique_override.
  destruct (Z.ltb_spec 1 (MPIR_CVAR_NUM_CLIQUES cfg)) as [Hn | Hn].
  - simpl. now apply Z.ltb_lt.
  - simpl. now destruct (MPIR_CVAR_ODD_EVEN_CLIQUES cfg =? 0).
Qed.

(** [MPIR_Init_async_thread] with the table size and the index named:
    the same computation, read off the source. *)
Lemma MPIR_Init_async_thread_unfold (cfg : config) (s : state) :
  MPIR_Init_async_thread cfg s =
  ('(mpi_errno, a, out) ←
     MPIDI_parse_progress_thread_affinity cfg (MPL_malloc (table_size cfg))
       (table_size cfg);
   let s1 := emit (events_before_parse cfg ++ out) s in
   if negb (mpi_errno =? 0) then Some (MPI_ERR_OTHER, emit [Ev_free] s1)
   else
     let '(err, s2) := thread_create cfg s1 in
     if negb (err =? 0) then Some (MPI_ERR_OTHER, emit [Ev_free] s2)
     else
       proc_id ← array_get a (table_index cfg);
       let thr_err :=
         MPL_thread_set_affinity cfg (progress_thread_id s2) proc_id in
       let s3 :=
         emit [Ev_set_affinity (progress_thread_id s2) (table_index cfg)
                 proc_id thr_err; Ev_free] s2 in
       if affinity_given cfg && negb (thr_err =? 0)
       then Some (MPI_ERR_OTHER, s3) else Some (mpi_errno, s3)).
Proof.
  unfold MPIR_Init_async_thread, table_size, table_index, events_before_parse,
    MPIR_ERR_CHKANDJUMP, init_fn_exit.
  rewrite num_cliques_override.
  set (N := if clique_override cfg then _ else _).
  set (idx := if clique_override cfg then _ else _).
  destruct (MPIDI_parse_progress_thread_affinity cfg (MPL_malloc N) N)
    as [[[e a] out] |]; [| reflexivity].
  cbn [mbind option_bind].
  assert (Hs1 : emit out
                  (emit [Ev_malloc N]
                     (if clique_override cfg && affinity_given cfg
                      then emit [Ev_fprintf_stderr Msg_cliques_affinity_conflict] s
                      else s)) =
                emit (((if clique_override cfg && affinity_given cfg
                        then [Ev_fprintf_stderr Msg_cliques_affinity_conflict]
                        else []) ++ [Ev_malloc N]) ++ out) s).
  { destruct (clique_override cfg && affinity_given cfg);
      now rewrite !emit_emit. }
  rewrite Hs1. clear Hs1.
  destruct (negb (e =? 0)); [reflexivity |].
  destruct (thread_create cfg _) as [err s2].
  destruct (negb (err =? 0)); [reflexivity |].
  destruct (array_get a idx) as [proc_id |]; [| reflexivity].
  cbn [mbind option_bind]. rewrite emit_emit. cbn [app].
  destruct (affinity_given cfg); [| reflexivity].
  now destruct (negb (_ =? 0)).
Qed.

(** A failure of the parser ends the start before any thread is
    made. *)
Lemma init_parse_failure (cfg : config) (s : state) (e : Z)
    (a : list (option Z)) (out : list event) :
  MPIDI_parse_progress_thread_affinity cfg (MPL_malloc (table_size cfg))
    (table_size cfg) = Some (e, a, out) ->
  e <> 0 ->
  MPIR_Init_async_thread cfg s =
  Some (MPI_ERR_OTHER, emit (events_before_parse cfg ++ out ++ [Ev_free]) s).
Proof.
  intros Hparse He. rewrite MPIR_Init_async_thread_unfold, Hparse.
  cbn [mbind option_bind]. apply Z.eqb_neq in He. rewrite He. cbn [negb].
  now rewrite emit_emit, <- app_assoc.
Qed.

(** A failure of [MPID_Thread_create] ends the start with no thread. *)
Lemma init_create_failure (cfg : config) (s : state)
    (a : list (option Z)) (out : list event) (err tid : Z) :
  MPIDI_parse_progress_thread_affinity cfg (MPL_malloc (table_size cfg))
    (table_size cfg) = Some (0, a, out) ->
  MPID_Thread_create cfg = (err, tid) ->
  err <> 0 ->
  MPIR_Init_async_thread cfg s =
  Some (MPI_ERR_OTHER,
        emit (events_before_parse cfg ++ out
              ++ [Ev_thread_create err tid; Ev_free]) s).
Proof.
  intros Hparse Hcreate Herr. rewrite MPIR_Init_async_thread_unfold, Hparse.
  cbn [mbind option_bind]. cbn [Z.eqb negb].
  unfold thread_create. rewrite Hcreate.
  apply Z.eqb_neq in Herr. rewrite Herr. cbv beta iota.
  rewrite Herr. cbn [negb].
  rewrite !emit_emit. now rewrite <- !app_assoc.
Qed.

(** With the table parsed and the thread created the start goes as far
    as the pinning; only its error, and whether an affinity string was
    given, decide the result. *)
Lemma init_thread_created (cfg : config) (s : state)
    (a : list (option Z)) (out : list event) (tid proc_id : Z) :
  MPIDI_parse_progress_thread_affinity cfg (MPL_malloc (table_size cfg))
    (table_size cfg) = Some (0, a, out) ->
  MPID_Thread_create cfg = (0, tid) ->
  array_get a (table_index cfg) = Some proc_id ->
  MPIR_Init_async_thread cfg s =
  Some (if affinity_given cfg
           && negb (MPL_thread_set_affinity cfg tid proc_id =? 0)
        then MPI_ERR_OTHER else MPI_SUCCESS,
        spawned tid
          (events_before_parse cfg ++ out
           ++ [Ev_thread_create 0 tid;
               Ev_set_affinity tid (table_index cfg) proc_id
                 (MPL_thread_set_affinity cfg tid proc_id);
               Ev_free]) s).
Proof.
  intros Hparse Hcreate Hget. rewrite MPIR_Init_async_thread_unfold, Hparse.
  cbn [mbind option_bind]. cbn [Z.eqb negb].
  unfold thread_create. rewrite Hcreate. cbn [Z.eqb negb].
  rewrite Hget. cbn [mbind option_bind progress_thread_id].
  assert (Hst : forall evs,
            emit evs
              {| MPIR_async_thread_initialized :=
                   MPIR_async_thread_initialized
                     (emit (events_before_parse cfg ++ out) s);
                 progress_thread_id := tid;
                 async_done := async_done (emit (events_before_parse cfg ++ out) s);
                 running := tid :: running (emit (events_before_parse cfg ++ out) s);
                 trace := trace (emit (events_before_parse cfg ++ out) s)
                          ++ [Ev_thread_create 0 tid] |} =
            spawned tid (events_before_parse cfg ++ out
                         ++ Ev_thread_create 0 tid :: evs) s).
  { intros evs. unfold emit, spawned. cbn. f_equal.
    rewrite <- !app_assoc. reflexivity. }
  rewrite Hst.
  now destruct (affinity_given cfg && negb (_ =? 0)).
Qed.

End InitFacts.

Section ParserOutputFacts.
Import Async.


Lemma parse_affinity_loop_prints (n : nat) :
  forall i rc tmp a N aff e rc' a' out,
    parse_affinity_loop n i rc tmp a N aff = Some (e, rc', a', out) ->
    forallb is_printf out = true.
Proof.
  induction n as [| n IH]; intros i rc tmp a N aff e rc' a' out Hrun.
  - cbn in Hrun. now inversion Hrun.
  - cbn [parse_affinity_loop] in Hrun.
    destruct (Libc.MPL_strsep tmp affinity_delim) as [[tok |] tmp'].
    + destruct (Libc.atoi tok) as [v |]; [| discriminate].
      cbn [mbind option_bind] in Hrun.
      destruct (v <? 0); [now inversion Hrun |].
      destruct (array_set a i v) as [a1 |]; [| discriminate].
      cbn [mbind option_bind] in Hrun. eapply IH, Hrun.
    + now inversion Hrun.
Qed.

Lemma parse_prints (cfg : config) (a : list (option Z)) (N e : Z)
    (a' : list (option Z)) (out : list event) :
  MPIDI_parse_progress_thread_affinity cfg a N = Some (e, a', out) ->
  forallb is_printf out = true.
Proof.
  unfold MPIDI_parse_progress_thread_affinity.
  assert (Hdefault : forall P,
            (a0 ← default_affinity_loop (Z.to_nat N) 0 P a;
             Some (MPI_SUCCESS, a0, [])) = Some (e, a', out) ->
            forallb is_printf out = true).
  { intros P H. destruct (default_affinity_loop _ _ _ _); [| discriminate].
    now inversion H. }
  destruct (MPIR_CVAR_CH4_PROGRESS_THREAD_AFFINITY cfg) as [aff |];
    [| apply Hdefault].
  destruct (Libc.strlen aff =? 0); [apply Hdefault |].
  destruct (parse_affinity_loop _ _ _ _ _ _ _) as [[[[e1 rc1] a1] out1] |] eqn:Hloop;
    [| discriminate].
  cbn [mbind option_bind].
  destruct (e1 =? MPI_SUCCESS).
  - destruct (rc1 <? N); intros H; now inversion H.
  - intros H. inversion H; subst.
    eapply parse_affinity_loop_prints, Hloop.
Qed.

Lemma printf_is_not_other (out : list event) (ev : event) :
  forallb is_printf out = true -> ev ∈ out -> is_printf ev = true.
Proof.
  intros Hall Hin. rewrite forallb_forall in Hall.
  apply Hall. now apply list_elem_of_In.
Qed.

End ParserOutputFacts.

(** C5: when the table is parsed and the thread is created, a failure of
    the pinning makes [MPIR_Init_async_thread] return an error if and only
    if a non-empty affinity string was given; without one the result is
    [MPI_SUCCESS] and the thread runs. *)
Theorem pinning_failure_fatal_iff_affinity_given (cfg : Async.config)
    (s : Async.state) (a : list (option Z)) (out : list Async.event)
    (tid proc_id : Z) :
  Async.MPIDI_parse_progress_thread_affinity cfg
    (Async.MPL_malloc (table_size cfg)) (table_size cfg) = Some (0, a, out) ->
  Async.MPID_Thread_create cfg = (0, tid) ->
  Async.array_get a (table_index cfg) = Some proc_id ->
  Async.MPL_thread_set_affinity cfg tid proc_id <> 0 ->
  exists e s',
    Async.MPIR_Init_async_thread cfg s = Some (e, s') /\
    (e <> MPI_SUCCESS <-> Async.affinity_given cfg = true) /\
    (Async.affinity_given cfg = false ->
       e = MPI_SUCCESS /\ Async.running s' = tid :: Async.running s).
Proof.
  intros Hparse Hcreate Hget Hpin.
  rewrite (init_thread_created cfg s a out tid proc_id Hparse Hcreate Hget).
  apply Z.eqb_neq in Hpin. rewrite Hpin. cbn [negb].
  rewrite andb_true_r.
  eexists _, _. split; [reflexivity |].
  destruct (Async.affinity_given cfg); split.
  - split; [reflexivity | discriminate].
  - discriminate.
  - split; [intros H; now contradiction H | discriminate].
  - intros _. split; reflexivity.
Qed.

Lemma pinning_failure_fatal_iff_affinity_given_witness :
  exists e s',
    Async.MPIR_Init_async_thread (example_config None 2 1 4 3 22)
      Async.initial_state = Some (e, s') /\
    (e <> MPI_SUCCESS <->
     Async.affinity_given (example_config None 2 1 4 3 22) = true) /\
    (Async.affinity_given (example_config None 2 1 4 3 22) = false ->
       e = MPI_SUCCESS /\ Async.running s' = 7 :: []).
Proof.
  apply (pinning_failure_fatal_iff_affinity_given
           (example_config None 2 1 4 3 22) Async.initial_state
           [Some 3; Some 2] [] 7 2).
  - reflexivity.
  - reflexivity.
  - reflexivity.
  - simpl. lia.
Defined.

Example pinning_failure_with_affinity_given :
  Async.MPIR_Init_async_thread (example_config (Some "0,1") 2 1 4 3 22)
    Async.initial_state =
  Some (MPI_ERR_OTHER,
        spawned 7 [Async.Ev_malloc 2; Async.Ev_thread_create 0 7;
                   Async.Ev_set_affinity 7 1 1 22; Async.Ev_free]
          Async.initial_state).
Proof. reflexivity. Qed.

(** C6, as the claim states it, fails: with the affinity string "0" and
    a pinning that fails, [MPIR_Init_async_thread] returns an error and
    the thread that it created is still running. *)
Lemma init_error_leaves_thread_running :
  exists s',
    Async.MPIR_Init_async_thread (example_config (Some "0") 1 0 4 3 22)
      Async.initial_state = Some (MPI_ERR_OTHER, s') /\
    MPI_ERR_OTHER <> MPI_SUCCESS /\
    Async.running s' = [7] /\
    Async.async_done s' = 0.
Proof.
  eexists. split; [reflexivity |]. split; [discriminate |].
  split; reflexivity.
Qed.

(** C6, amended: [MPIR_Init_async_thread] leaves through one exit, on
    which the table is freed last; and when it returns an error, either
    no thread was made (the running threads and [progress_thread_id] are
    as before), or an affinity string was given and the last thing done
    before the exit is a pinning that failed. *)
Theorem init_error_without_thread (cfg : Async.config) (s : Async.state)
    (e : Z) (s' : Async.state) :
  Async.MPIR_Init_async_thread cfg s = Some (e, s') ->
  exists evs,
    Async.trace s' = Async.trace s ++ evs ++ [Async.Ev_free] /\
    (e <> MPI_SUCCESS ->
       (Async.running s' = Async.running s /\
        Async.progress_thread_id s' = Async.progress_thread_id s)
       \/ (Async.affinity_given cfg = true /\
           exists tid idx proc_id thr_err,
             thr_err <> 0 /\
             last evs = Some (Async.Ev_set_affinity tid idx proc_id thr_err))).
Proof.
  destruct (Async.MPIDI_parse_progress_thread_affinity cfg
              (Async.MPL_malloc (table_size cfg)) (table_size cfg))
    as [[[e0 a] out] |] eqn:Hparse.
  2: { rewrite MPIR_Init_async_thread_unfold, Hparse. discriminate. }
  destruct (Z.eq_dec e0 0) as [-> | He0].
  2: { rewrite (init_parse_failure cfg s e0 a out Hparse He0).
       intros H. injection H as <- <-.
       exists (events_before_parse cfg ++ out).
       split; [| intros _; left; split; reflexivity].
       cbn [Async.trace Async.emit]. now rewrite <- !app_assoc. }
  destruct (Async.MPID_Thread_create cfg) as [err tid] eqn:Hcreate.
  destruct (Z.eq_dec err 0) as [-> | Herr].
  2: { rewrite (init_create_failure cfg s a out err tid Hparse Hcreate Herr).
       intros H. injection H as <- <-.
       exists (events_before_parse cfg ++ out ++ [Async.Ev_thread_create err tid]).
       split; [| intros _; left; split; reflexivity].
       cbn [Async.trace Async.emit]. now rewrite <- !app_assoc. }
  destruct (Async.array_get a (table_index cfg)) as [proc_id |] eqn:Hget.
  2: { rewrite MPIR_Init_async_thread_unfold, Hparse.
       cbn [mbind option_bind Z.eqb negb].
       unfold Async.thread_create. rewrite Hcreate. cbn [Z.eqb negb].
       rewrite Hget. discriminate. }
  rewrite (init_thread_created cfg s a out tid proc_id Hparse Hcreate Hget).
  set (thr_err := Async.MPL_thread_set_affinity cfg tid proc_id).
  intros H. injection H as <- <-.
  exists ((events_before_parse cfg ++ out ++ [Async.Ev_thread_create 0 tid])
          ++ [Async.Ev_set_affinity tid (table_index cfg) proc_id thr_err]).
  split.
  - cbn [Async.trace spawned]. now rewrite <- !app_assoc.
  - destruct (Async.affinity_given cfg); cbn [andb];
      [| intros Hne; now contradiction Hne].
    destruct (Z.eqb_spec thr_err 0) as [Hz | Hnz]; cbn [negb];
      [intros Hne; now contradiction Hne |].
    intros _. right. split; [reflexivity |].
    exists tid, (table_index cfg), proc_id, thr_err. split; [assumption |].
    apply last_snoc.
Qed.

Lemma init_error_without_thread_witness :
  exists evs,
    Async.trace
      (Async.emit [Async.Ev_malloc 2;
                   Async.Ev_printf (Async.Msg_unexpected_end 2 1 "0");
                   Async.Ev_free] Async.initial_state)
    = Async.trace Async.initial_state ++ evs ++ [Async.Ev_free] /\
    (MPI_ERR_OTHER <> MPI_SUCCESS ->
       (Async.running
          (Async.emit [Async.Ev_malloc 2;
                       Async.Ev_printf (Async.Msg_unexpected_end 2 1 "0");
                       Async.Ev_free] Async.initial_state)
        = Async.running Async.initial_state /\
        Async.progress_thread_id
          (Async.emit [Async.Ev_malloc 2;
                       Async.Ev_printf (Async.Msg_unexpected_end 2 1 "0");
                       Async.Ev_free] Async.initial_state)
        = Async.progress_thread_id Async.initial_state)
       \/ (Async.affinity_given (example_config (Some "0") 2 1 4 3 0) = true /\
           exists tid idx proc_id thr_err,
             thr_err <> 0 /\
             last evs = Some (Async.Ev_set_affinity tid idx proc_id thr_err))).
Proof.
  apply (init_error_without_thread (example_config (Some "0") 2 1 4 3 0)
           Async.initial_state MPI_ERR_OTHER
           (Async.emit [Async.Ev_malloc 2;
                        Async.Ev_printf (Async.Msg_unexpected_end 2 1 "0");
                        Async.Ev_free] Async.initial_state)).
  reflexivity.
Defined.

Section TableFacts.
Import Async.

Lemma clique_override_true (cfg : config) :
  clique_override cfg = true <->
  1 < MPIR_CVAR_NUM_CLIQUES cfg \/ MPIR_CVAR_ODD_EVEN_CLIQUES cfg <> 0.
Proof.
  unfold clique_override. rewrite orb_true_iff, Z.ltb_lt, negb_true_iff.
  now rewrite Z.eqb_neq.
Qed.

Lemma elem_of_events_before_parse (cfg : config) (ev : event) :
  ev ∈ events_before_parse cfg ->
  ev = Ev_fprintf_stderr Msg_cliques_affinity_conflict
  \/ ev = Ev_malloc (table_size cfg).
Proof.
  unfold events_before_parse. rewrite elem_of_app.
  destruct (clique_override cfg && affinity_given cfg);
    rewrite ?elem_of_cons, ?elem_of_nil; tauto.
Qed.

Lemma malloc_in_events_before_parse (cfg : config) :
  Ev_malloc (table_size cfg) ∈ events_before_parse cfg.
Proof.
  unfold events_before_parse. rewrite elem_of_app, elem_of_cons. tauto.
Qed.

(** The events of a start are those before the parser, what the parser
    prints, and some of: the creation, the pinning at [table_index],
    the release of the table. *)
Lemma init_events (cfg : config) (s : state) (e : Z) (s' : state) :
  MPIR_Init_async_thread cfg s = Some (e, s') ->
  exists out tl,
    trace s' = trace s ++ events_before_parse cfg ++ out ++ tl /\
    forallb is_printf out = true /\
    (forall ev, ev ∈ tl ->
       ev = Ev_free \/ (exists err tid, ev = Ev_thread_create err tid)
       \/ exists tid p thr_err,
            ev = Ev_set_affinity tid (table_index cfg) p thr_err) /\
    (e = MPI_SUCCESS ->
       exists tid p thr_err,
         Ev_set_affinity tid (table_index cfg) p thr_err ∈ tl).
Proof.
  destruct (MPIDI_parse_progress_thread_affinity cfg
              (MPL_malloc (table_size cfg)) (table_size cfg))
    as [[[e0 a] out] |] eqn:Hparse.
  2: { rewrite MPIR_Init_async_thread_unfold, Hparse. discriminate. }
  pose proof (parse_prints _ _ _ _ _ _ Hparse) as Hout.
  destruct (Z.eq_dec e0 0) as [-> | He0].
  2: { rewrite (init_parse_failure cfg s e0 a out Hparse He0).
       intros H. injection H as <- <-.
       exists out, [Ev_free]. split; [reflexivity |]. split; [assumption |].
       split; [| discriminate].
       intros ev. rewrite elem_of_cons, elem_of_nil. tauto. }
  destruct (MPID_Thread_create cfg) as [err tid] eqn:Hcreate.
  destruct (Z.eq_dec err 0) as [-> | Herr].
  2: { rewrite (init_create_failure cfg s a out err tid Hparse Hcreate Herr).
       intros H. injection H as <- <-.
       exists out, [Ev_thread_create err tid; Ev_free].
       split; [reflexivity |]. split; [assumption |].
       split; [| discriminate].
       intros ev. rewrite !elem_of_cons, elem_of_nil.
       intros [-> | [-> | []]]; eauto. }
  destruct (array_get a (table_index cfg)) as [proc_id |] eqn:Hget.
  2: { rewrite MPIR_Init_async_thread_unfold, Hparse.
       cbn [mbind option_bind Z.eqb negb].
       unfold thread_create. rewrite Hcreate. cbn [Z.eqb negb].
       rewrite Hget. discriminate. }
  rewrite (init_thread_created cfg s a out tid proc_id Hparse Hcreate Hget).
  intros H. injection H as _ <-.
  eexists out, _. split; [reflexivity |]. split; [assumption |].
  split.
  - intros ev. rewrite !elem_of_cons, elem_of_nil.
    intros [-> | [-> | [-> | []]]]; eauto 6.
  - intros _. eexists _, _, _. rewrite !elem_of_cons. right. left. reflexivity.
Qed.

End TableFacts.

(** C9: with a clique override ([MPIR_CVAR_NUM_CLIQUES > 1], or
    [MPIR_CVAR_ODD_EVEN_CLIQUES] set) the table that
    [MPIR_Init_async_thread] allocates has the size of the world
    communicator and the pinning reads it at the rank in the world;
    otherwise the table has the size of the node communicator (1 without
    one) and is read at the rank in the node. *)
Theorem affinity_table_size_and_index (cfg : Async.config) (s : Async.state)
    (e : Z) (s' : Async.state) :
  Async.MPIR_Init_async_thread cfg s = Some (e, s') ->
  exists evs size idx,
    Async.trace s' = Async.trace s ++ evs /\
    Async.Ev_malloc size ∈ evs /\
    (forall n, Async.Ev_malloc n ∈ evs -> n = size) /\
    (forall tid i p thr_err,
       Async.Ev_set_affinity tid i p thr_err ∈ evs -> i = idx) /\
    (e = MPI_SUCCESS ->
       exists tid p thr_err, Async.Ev_set_affinity tid idx p thr_err ∈ evs) /\
    (1 < Async.MPIR_CVAR_NUM_CLIQUES cfg
     \/ Async.MPIR_CVAR_ODD_EVEN_CLIQUES cfg <> 0 ->
       size = local_size (Async.comm_world cfg) /\
       idx = rank (Async.comm_world cfg)) /\
    (~ (1 < Async.MPIR_CVAR_NUM_CLIQUES cfg
        \/ Async.MPIR_CVAR_ODD_EVEN_CLIQUES cfg <> 0) ->
       match node_comm (Async.comm_world cfg) with
       | Some node => size = local_size node /\ idx = rank node
       | None => size = 1 /\ idx = 0
       end).
Proof.
  intros Hrun.
  destruct (init_events cfg s e s' Hrun) as (out & tl & Htrace & Hout & Htl & Hpin).
  exists (events_before_parse cfg ++ out ++ tl), (table_size cfg), (table_index cfg).
  split; [assumption |].
  split; [rewrite elem_of_app; left; apply malloc_in_events_before_parse |].
  assert (Hother : forall ev,
            ev ∈ events_before_parse cfg ++ out ++ tl ->
            is_printf ev = false ->
            ev = Async.Ev_fprintf_stderr Async.Msg_cliques_affinity_conflict
            \/ ev = Async.Ev_malloc (table_size cfg)
            \/ ev ∈ tl).
  { intros ev. rewrite !elem_of_app. intros [Hb | [Ho | Ht]] Hnp.
    - apply elem_of_events_before_parse in Hb. tauto.
    - rewrite (printf_is_not_other out ev Hout Ho) in Hnp. discriminate.
    - tauto. }
  split.
  { intros n Hn. destruct (Hother _ Hn eq_refl) as [H | [H | H]];
      [discriminate | now injection H |].
    destruct (Htl _ H) as [H' | [(? & ? & H') | (? & ? & ? & H')]];
      discriminate. }
  split.
  { intros tid i p thr_err Hi.
    destruct (Hother _ Hi eq_refl) as [H | [H | H]]; [discriminate.. |].
    destruct (Htl _ H) as [H' | [(? & ? & H') | (? & ? & ? & H')]];
      [discriminate.. |]. now injection H'. }
  split.
  { intros He. destruct (Hpin He) as (tid & p & thr_err & Hin).
    exists tid, p, thr_err. rewrite !elem_of_app. tauto. }
  unfold table_size, table_index. split.
  - intros Hov. apply clique_override_true in Hov. now rewrite Hov.
  - intros Hno. destruct (clique_override cfg) eqn:Hov.
    + apply clique_override_true in Hov. contradiction.
    + now destruct (node_comm (Async.comm_world cfg)).
Qed.


Lemma affinity_table_size_and_index_witness :
  exists evs size idx,
    Async.trace clique_started = Async.trace Async.initial_state ++ evs /\
    Async.Ev_malloc size ∈ evs /\
    (forall n, Async.Ev_malloc n ∈ evs -> n = size) /\
    (forall tid i p thr_err,
       Async.Ev_set_affinity tid i p thr_err ∈ evs -> i = idx) /\
    (MPI_SUCCESS = MPI_SUCCESS ->
       exists tid p thr_err, Async.Ev_set_affinity tid idx p thr_err ∈ evs) /\
    (1 < Async.MPIR_CVAR_NUM_CLIQUES clique_config
     \/ Async.MPIR_CVAR_ODD_EVEN_CLIQUES clique_config <> 0 ->
       size = local_size (Async.comm_world clique_config) /\
       idx = rank (Async.comm_world clique_config)) /\
    (~ (1 < Async.MPIR_CVAR_NUM_CLIQUES clique_config
        \/ Async.MPIR_CVAR_ODD_EVEN_CLIQUES clique_config <> 0) ->
       match node_comm (Async.comm_world clique_config) with
       | Some node => size = local_size node /\ idx = rank node
       | None => size = 1 /\ idx = 0
       end).
Proof.
  apply (affinity_table_size_and_index clique_config Async.initial_state
           MPI_SUCCESS clique_started).
  reflexivity.
Defined.


Section BadAffinityFacts.
Import Async.


Lemma strsep_scan_entries (s : string) :
  entries s =
  fst (Libc.strsep_scan s affinity_delim)
  :: entries_left (snd (Libc.strsep_scan s affinity_delim)).
Proof.
  induction s as [| c s IH]; [reflexivity |].
  cbn -[affinity_delim]. unfold is_delimiter.
  destruct (Libc.strchr affinity_delim c); [reflexivity |].
  rewrite IH. now destruct (Libc.strsep_scan s affinity_delim).
Qed.

Lemma MPL_strsep_entries (tmp : option string) :
  match Libc.MPL_strsep tmp affinity_delim with
  | (Some tok, tmp') => entries_left tmp = tok :: entries_left tmp'
  | (None, _) => entries_left tmp = []
  end.
Proof.
  destruct tmp as [s |]; [| reflexivity]. cbn -[affinity_delim].
  rewrite (strsep_scan_entries s).
  now destruct (Libc.strsep_scan s affinity_delim).
Qed.

(** The loop stops with an error when one of the entries it reads is
    negative or when the entries end too early. *)
Lemma parse_affinity_loop_bad (n : nat) :
  forall i rc tmp a N aff,
    0 <= i ->
    i + Z.of_nat n <= Z.of_nat (length a) ->
    forallb readable_entry (take n (entries_left tmp)) = true ->
    existsb negative_entry (take n (entries_left tmp)) = true
    \/ (length (entries_left tmp) < n)%nat ->
    exists rc' a' out,
      parse_affinity_loop n i rc tmp a N aff
      = Some (MPI_ERR_OTHER, rc', a', out).
Proof.
  induction n as [| n IH]; intros i rc tmp a N aff Hi Hlen Hread Hbad.
  - cbn in Hbad. destruct Hbad as [Hbad | Hbad]; [discriminate | lia].
  - cbn [parse_affinity_loop].
    pose proof (MPL_strsep_entries tmp) as Hsep.
    destruct (Libc.MPL_strsep tmp affinity_delim) as [[tok |] tmp'].
    + rewrite Hsep in Hread, Hbad. cbn [take forallb existsb length] in Hread, Hbad.
      apply andb_prop in Hread as [Htok Hread].
      unfold readable_entry in Htok. apply bool_decide_eq_true in Htok.
      destruct Htok as [v Hv]. unfold negative_entry in Hbad at 1.
      rewrite Hv in Hbad |- *. cbn [mbind option_bind].
      destruct (v <? 0); [eauto |]. cbn [orb] in Hbad.
      rewrite array_set_in_range by lia. cbn [mbind option_bind].
      apply IH; [lia | rewrite length_insert; lia | assumption |].
      destruct Hbad as [Hbad | Hbad]; [now left | right; lia].
    + eauto.
Qed.

Lemma parse_bad_affinity (cfg : config) (aff : string) (N : Z) :
  MPIR_CVAR_CH4_PROGRESS_THREAD_AFFINITY cfg = Some aff ->
  0 < Libc.strlen aff ->
  forallb readable_entry (take (Z.to_nat N) (entries aff)) = true ->
  existsb negative_entry (take (Z.to_nat N) (entries aff)) = true
  \/ (length (entries aff) < Z.to_nat N)%nat ->
  exists a out,
    MPIDI_parse_progress_thread_affinity cfg (MPL_malloc N) N
    = Some (MPI_ERR_OTHER, a, out).
Proof.
  intros Haff Hlen Hread Hbad.
  unfold MPIDI_parse_progress_thread_affinity. rewrite Haff.
  destruct (Z.eqb_spec (Libc.strlen aff) 0) as [H0 | _]; [lia |].
  destruct (parse_affinity_loop_bad (Z.to_nat N) 0 0 (Some aff) (MPL_malloc N)
              N aff) as (rc & a & out & Hloop);
    [lia | rewrite length_MPL_malloc; lia | assumption.. |].
  rewrite Hloop. cbn [mbind option_bind].
  change (MPI_ERR_OTHER =? MPI_SUCCESS) with false. cbv iota. eauto.
Qed.

End BadAffinityFacts.

(** C3, as the claim states it, fails: in "0,x" the second entry is
    malformed, and "0,1,2" has three entries where two are required; with
    either the progress thread is started and the result is
    [MPI_SUCCESS]. *)
Lemma malformed_or_surplus_affinity_accepted :
  (existsb (fun e => negb (well_formed_entry e)) (entries "0,x") = true /\
   exists s',
     Async.MPIR_Init_async_thread (example_config (Some "0,x") 2 0 4 3 0)
       Async.initial_state = Some (MPI_SUCCESS, s') /\
     Async.running s' = [7]) /\
  (length (entries "0,1,2") <> 2%nat /\
   exists s',
     Async.MPIR_Init_async_thread (example_config (Some "0,1,2") 2 0 4 3 0)
       Async.initial_state = Some (MPI_SUCCESS, s') /\
     Async.running s' = [7]).
Proof.
  split; (split; [vm_compute; congruence |]);
    eexists; (split; [reflexivity | reflexivity]).
Qed.

(** C3, amended: with a non-empty affinity string whose first [N]
    entries [atoi] reads within [int] ([N] the size of the table), if one
    of these entries is negative or the string has fewer than [N] entries
    (as "0" with 2 threads), [MPIR_Init_async_thread] returns
    [MPI_ERR_OTHER] after the parser has printed, and no thread is made:
    the running threads and [progress_thread_id] are as before. *)
Theorem bad_affinity_aborts_startup (cfg : Async.config) (s : Async.state)
    (aff : string) :
  Async.MPIR_CVAR_CH4_PROGRESS_THREAD_AFFINITY cfg = Some aff ->
  0 < Libc.strlen aff ->
  forallb readable_entry (take (Z.to_nat (table_size cfg)) (entries aff)) = true ->
  existsb negative_entry (take (Z.to_nat (table_size cfg)) (entries aff)) = true
  \/ (length (entries aff) < Z.to_nat (table_size cfg))%nat ->
  exists s' out,
    Async.MPIR_Init_async_thread cfg s = Some (MPI_ERR_OTHER, s') /\
    MPI_ERR_OTHER <> MPI_SUCCESS /\
    Async.running s' = Async.running s /\
    Async.progress_thread_id s' = Async.progress_thread_id s /\
    Async.trace s' =
      Async.trace s ++ events_before_parse cfg ++ out ++ [Async.Ev_free] /\
    forallb is_printf out = true.
Proof.
  intros Haff Hlen Hread Hbad.
  destruct (parse_bad_affinity cfg aff (table_size cfg) Haff Hlen Hread Hbad)
    as (a & out & Hparse).
  exists (Async.emit (events_before_parse cfg ++ out ++ [Async.Ev_free]) s), out.
  split; [apply (init_parse_failure cfg s _ a out Hparse); discriminate |].
  split; [discriminate |].
  repeat (split; [reflexivity |]).
  apply (parse_prints _ _ _ _ _ _ Hparse).
Qed.

Lemma bad_affinity_aborts_startup_witness :
  exists s' out,
    Async.MPIR_Init_async_thread (example_config (Some "0") 2 0 4 3 0)
      Async.initial_state = Some (MPI_ERR_OTHER, s') /\
    MPI_ERR_OTHER <> MPI_SUCCESS /\
    Async.running s' = Async.running Async.initial_state /\
    Async.progress_thread_id s' = Async.progress_thread_id Async.initial_state /\
    Async.trace s' =
      Async.trace Async.initial_state
      ++ events_before_parse (example_config (Some "0") 2 0 4 3 0)
      ++ out ++ [Async.Ev_free] /\
    forallb is_printf out = true.
Proof.
  apply (bad_affinity_aborts_startup (example_config (Some "0") 2 0 4 3 0)
           Async.initial_state "0").
  - reflexivity.
  - reflexivity.
  - reflexivity.
  - right. vm_compute. lia.
Defined.

Example negative_entry_aborts_startup :
  Async.MPIR_Init_async_thread (example_config (Some "0,-1") 2 0 4 3 0)
    Async.initial_state =
  Some (MPI_ERR_OTHER,
        Async.emit [Async.Ev_malloc 2;
                    Async.Ev_printf (Async.Msg_unexpected_proc_id "-1" "0,-1");
                    Async.Ev_free] Async.initial_state).
Proof. reflexivity. Qed.

(** ** Stopping the progress thread *)


Section ProgressFacts.
Import Progress.

Lemma after_stop_snoc (h : list label) (l : label) :
  after_stop (h ++ [l]) =
  match after_stop h with
  | Some post => Some (post ++ [l])
  | None => after_stop [l]
  end.
Proof.
  induction h as [| x h IH]; [reflexivity |].
  destruct x as [[] |]; cbn [app after_stop]; try assumption.
  now destruct (v =? 0).
Qed.

Lemma worker_events_app (h1 h2 : list label) :
  worker_events (h1 ++ h2) = worker_events h1 ++ worker_events h2.
Proof.
  induction h1 as [| [e | e] h1 IH]; cbn; [reflexivity | | assumption].
  now rewrite IH.
Qed.

Lemma before_join_snoc (h : list label) (l : label) :
  before_join (h ++ [l]) =
  match before_join h with
  | Some pre => Some pre
  | None => match l with M Join => Some h | _ => None end
  end.
Proof.
  induction h as [| x h IH].
  - now destruct l as [[] | []].
  - destruct x as [e | []]; cbn [app before_join]; try reflexivity;
      rewrite IH; destruct (before_join h); try reflexivity;
      now destruct l as [[] | []].
Qed.

Lemma test_not_in_worker_events (h : list label) :
  Progress_test ∉ worker_events h -> W Progress_test ∉ h.
Proof.
  intros Hno Hin. apply Hno. clear Hno.
  induction h as [| x h IH]; [now apply elem_of_nil in Hin |].
  apply elem_of_cons in Hin as [<- | Hin]; cbn.
  - apply elem_of_cons. now left.
  - destruct x; [apply elem_of_cons; right |]; now apply IH.
Qed.


Lemma invariant_init : invariant init.
Proof. split; cbn; [reflexivity | discriminate | tauto]. Qed.

Lemma invariant_worker_step (s s' : sys) :
  invariant s -> worker_step s = Some s' -> invariant s'.
Proof.
  intros [Hstop Hexit Hmain] Hstep. unfold worker_step in Hstep.
  destruct (progress_fn (async_done s) (worker s)) as [[pc e] |] eqn:Hpc;
    [| discriminate].
  cbn in Hstep. injection Hstep as <-.
  split; cbn [history worker main Progress.async_done].
  - rewrite after_stop_snoc.
    destruct (worker s); cbn in Hpc;
      try (destruct (Z.eqb_spec (async_done s) 0) as [Hz | Hz]);
      inversion Hpc; subst; clear Hpc; cbn in Hstop;
      destruct (after_stop (history s)) as [post |]; cbn in Hstop |- *;
      try discriminate; try reflexivity;
      try (rewrite worker_events_app; injection Hstop as ->; reflexivity).
    + now rewrite Hz.
    + apply Z.eqb_neq in Hz. now rewrite Hz.
  - intros ->. rewrite elem_of_app.
    destruct (worker s); cbn in Hpc; try (inversion Hpc; fail).
    + destruct (async_done s =? 0) in Hpc; inversion Hpc.
    + inversion Hpc; subst. right. rewrite elem_of_cons. now left.
  - destruct (main s).
    + rewrite before_join_snoc. destruct Hmain as [-> ->]. tauto.
    + rewrite before_join_snoc, elem_of_app.
      destruct Hmain as (-> & Hin & ->). tauto.
    + rewrite before_join_snoc.
      destruct Hmain as (-> & pre & -> & Hin). eauto.
Qed.

Lemma invariant_finalize_step (s s' : sys) :
  invariant s -> finalize_step s = Some s' -> invariant s'.
Proof.
  intros [Hstop Hexit Hmain] Hstep. unfold finalize_step in Hstep.
  destruct (main s) eqn:Hm; [| | discriminate].
  - injection Hstep as <-.
    split; cbn [history worker main Progress.async_done].
    + rewrite after_stop_snoc, <- Hstop.
      destruct (after_stop (history s)); cbn; [| reflexivity].
      rewrite worker_events_app. cbn. now rewrite app_nil_r.
    + intros Hw. rewrite elem_of_app. left. now apply Hexit.
    + rewrite before_join_snoc, elem_of_app, list_elem_of_singleton.
      destruct Hmain as [_ ->]. tauto.
  - destruct (worker s) eqn:Hw; try discriminate.
    injection Hstep as <-.
    split; cbn [history worker main Progress.async_done].
    + rewrite after_stop_snoc, <- Hstop.
      destruct (after_stop (history s)); cbn; [| reflexivity].
      rewrite worker_events_app. cbn. now rewrite app_nil_r.
    + intros _. rewrite elem_of_app. left. now apply Hexit.
    + rewrite before_join_snoc.
      destruct Hmain as (-> & Hin & ->). split; [reflexivity |].
      exists (history s). auto.
Qed.

Lemma invariant_reachable (s : sys) : rtc step init s -> invariant s.
Proof.
  intros Hreach.
  apply (rtc_ind_r (R := step) (fun s => invariant s) init invariant_init);
    [| exact Hreach].
  intros y z _ Hstep IH. destruct Hstep as [y z Hw | y z Hm].
  - eapply invariant_worker_step; eassumption.
  - eapply invariant_finalize_step; eassumption.
Qed.

Lemma run_worker_steps (n : nat) (s : sys) : rtc step s (run_worker n s).
Proof.
  revert s. induction n as [| n IH]; intros s; cbn; [apply rtc_refl |].
  destruct (worker_step s) as [s1 |] eqn:Hstep; [| apply rtc_refl].
  eapply rtc_l; [apply step_worker, Hstep | apply IH].
Qed.

(** With the flag set the progress thread returns within five steps of
    its own. *)
Lemma run_worker_returns (s : sys) :
  async_done s <> 0 -> worker (run_worker 5 s) = Returned.
Proof.
  intros Hdone. apply Z.eqb_neq in Hdone.
  destruct s as [done w m h]. cbn in Hdone.
  destruct w; cbn; rewrite ?Hdone; cbn; rewrite ?Hdone; reflexivity.
Qed.

End ProgressFacts.

(** C4: [MPIR_Finalize_async_thread] stores 1 in [async_done] and then
    joins the thread; in every interleaving of the two threads, after the
    load that reads the flag set the progress thread does no
    [MPID_Progress_test]: it only ends the progress state, leaves the
    critical section and returns; the join returns after the store and
    after the thread has left the critical section; and once the flag is
    set the thread returns within five of its steps. *)
Theorem shutdown_stops_progress_loop :
  (forall (cfg : Async.config) (s : Async.state),
     exists s',
       Async.MPIR_Finalize_async_thread cfg s = Some (MPI_SUCCESS, s') /\
       Async.async_done s' = 1 /\
       Async.trace s' =
         Async.trace s ++ [Async.Ev_atomic_store 1;
                           Async.Ev_thread_join (Async.progress_thread_id s)] /\
       Async.progress_thread_id s ∉ Async.running s') /\
  (forall s : Progress.sys,
     rtc Progress.step Progress.init s ->
     (forall post,
        after_stop (Progress.history s) = Some post ->
        worker_events post `prefix_of` [Progress.Progress_end; Progress.CS_EXIT]
        /\ Progress.W Progress.Progress_test ∉ post) /\
     (forall pre,
        before_join (Progress.history s) = Some pre ->
        Progress.M (Progress.Store 1) ∈ pre
        /\ Progress.W Progress.CS_EXIT ∈ pre) /\
     (Progress.async_done s <> 0 ->
        rtc Progress.step s (Progress.run_worker 5 s) /\
        Progress.worker (Progress.run_worker 5 s) = Progress.Returned /\
        exists post,
          after_stop (Progress.history (Progress.run_worker 5 s)) = Some post /\
          worker_events post = [Progress.Progress_end; Progress.CS_EXIT])).
Proof.
  split.
  - intros cfg s. eexists. split; [reflexivity |]. cbn.
    split; [reflexivity |]. split; [reflexivity |].
    rewrite list_elem_of_filter. tauto.
  - intros s Hreach. pose proof (invariant_reachable s Hreach) as Hinv.
    split; [| split].
    + intros post Hpost. destruct Hinv as [Hstop _ _].
      rewrite Hpost in Hstop. cbn in Hstop.
      assert (Hcases : worker_events post = []
                       \/ worker_events post = [Progress.Progress_end]
                       \/ worker_events post
                          = [Progress.Progress_end; Progress.CS_EXIT]).
      { destruct (Progress.worker s); cbn in Hstop; try discriminate;
          injection Hstop as ->; tauto. }
      split.
      * destruct Hcases as [-> | [-> | ->]].
        -- now exists [Progress.Progress_end; Progress.CS_EXIT].
        -- now exists [Progress.CS_EXIT].
        -- now exists [].
      * apply test_not_in_worker_events.
        destruct Hcases as [-> | [-> | ->]];
          rewrite ?elem_of_cons, elem_of_nil; intros H;
          repeat destruct H as [H | H]; discriminate || assumption.
    + intros pre Hpre. destruct Hinv as [_ _ Hmain].
      destruct (Progress.main s).
      * destruct Hmain as [_ Hnone]. congruence.
      * destruct Hmain as (_ & _ & Hnone). congruence.
      * destruct Hmain as (_ & pre' & Hpre' & Hin).
        rewrite Hpre in Hpre'. now injection Hpre' as ->.
    + intros Hdone.
      pose proof (run_worker_steps 5 s) as Hrun.
      pose proof (run_worker_returns s Hdone) as Hret.
      split; [assumption |]. split; [assumption |].
      assert (Hinv' : invariant (Progress.run_worker 5 s))
        by (apply invariant_reachable; etrans; eassumption).
      destruct Hinv' as [Hstop _ _]. rewrite Hret in Hstop. cbn in Hstop.
      destruct (after_stop _) as [post |]; [| discriminate].
      exists post. split; [reflexivity |]. now injection Hstop.
Qed.

(** An interleaving: the flag is stored while the thread is between its
    load and [MPID_Progress_test]; one more test runs, then the thread
    reads the flag and leaves, and the join returns. *)
Example shutdown_interleaving :
  Progress.run_schedule
    [true; true; true; false; true; true; true; true; true; false]
    Progress.init =
  Some {| Progress.async_done := 1;
          Progress.worker := Progress.Returned;
          Progress.main := Progress.Finalized;
          Progress.history :=
            [Progress.W Progress.CS_ENTER; Progress.W Progress.Progress_start;
             Progress.W (Progress.Load 0); Progress.M (Progress.Store 1);
             Progress.W Progress.Progress_test; Progress.W Progress.CS_YIELD;
             Progress.W (Progress.Load 1); Progress.W Progress.Progress_end;
             Progress.W Progress.CS_EXIT; Progress.M Progress.Join] |}.
Proof. reflexivity. Qed.

(** The join does not return while the progress thread is in its loop. *)
Example join_blocks_until_return :
  Progress.run_schedule [true; true; false; false] Progress.init = None.
Proof. reflexivity. Qed.

(** * Further properties *)

(** ** Reference counting *)

Section CountingFacts.
Import Comm.
Variable delete_body : Z -> gmap Z MPIR_Comm -> Z * gmap Z MPIR_Comm.

Lemma set_ref_count_same (c : MPIR_Comm) : set_ref_count (ref_count c) c = c.
Proof. now destruct c. Qed.

Lemma set_ref_count_twice (n m : Z) (c : MPIR_Comm) :
  set_ref_count n (set_ref_count m c) = set_ref_count n c.
Proof. reflexivity. Qed.

Lemma in_int_range_between (z : Z) :
  INT_MIN <= z <= INT_MAX -> in_int_range z = true.
Proof.
  intros [Hlo Hhi]. unfold in_int_range.
  apply Z.leb_le in Hlo. apply Z.leb_le in Hhi. now rewrite Hlo, Hhi.
Qed.

(** While more references are held than are released, nothing is
    deleted and the count goes down by one a call. *)
Lemma release_times_keeps (p : Z) (s : comm_state) (c : MPIR_Comm) :
  comms s !! p = Some c ->
  ref_count c <= INT_MAX ->
  forall j : nat,
    Z.of_nat j < ref_count c ->
    release_times delete_body j p s =
    Some (MPI_SUCCESS,
          {| comms := <[p := set_ref_count (ref_count c - Z.of_nat j) c]> (comms s);
             delete_calls := delete_calls s |}).
Proof.
  intros Hp Hmax j. induction j as [| j IH]; intros Hj.
  - cbn [release_times]. rewrite Z.sub_0_r, set_ref_count_same.
    rewrite (insert_id _ _ _ Hp). now destruct s.
  - cbn [release_times]. rewrite IH by lia. cbn [mbind option_bind].
    unfold MPIR_Comm_release. cbn [comms delete_calls].
    rewrite (release_ref_decrements p _ (set_ref_count (ref_count c - Z.of_nat j) c)).
    + cbn [mbind option_bind ref_count set_ref_count].
      destruct (Z.eqb_spec (ref_count c - Z.of_nat j - 1) 0) as [H0 | _]; [lia |].
      rewrite insert_insert_eq.
      replace (ref_count c - Z.of_nat j - 1) with (ref_count c - Z.of_nat (S j))
        by lia.
      reflexivity.
    + apply lookup_insert_eq.
    + apply in_int_range_between. cbn [ref_count set_ref_count].
      unfold INT_MIN. lia.
Qed.

End CountingFacts.

(** X1: a communicator that holds [n >= 1] references survives every
    number of releases below [n]: each returns [MPI_SUCCESS], deletes
    nothing and leaves one reference less; the [n]-th release calls
    [MPIR_Comm_delete_internal], once, on the object with count 0, and
    returns what it returns. *)
Theorem release_deletes_at_last_reference
    (delete_body : Z -> gmap Z MPIR_Comm -> Z * gmap Z MPIR_Comm)
    (comm_ptr : Z) (s : Comm.comm_state) (c : MPIR_Comm) (n : nat) :
  Comm.comms s !! comm_ptr = Some c ->
  ref_count c = Z.of_nat (S n) ->
  ref_count c <= INT_MAX ->
  (forall j : nat,
     (j <= n)%nat ->
     release_times delete_body j comm_ptr s =
     Some (MPI_SUCCESS,
           {| Comm.comms :=
                <[comm_ptr := set_ref_count (ref_count c - Z.of_nat j) c]>
                  (Comm.comms s);
              Comm.delete_calls := Comm.delete_calls s |})) /\
  exists e s',
    release_times delete_body (S n) comm_ptr s = Some (e, s') /\
    Comm.delete_calls s' = Comm.delete_calls s ++ [comm_ptr] /\
    (e, Comm.comms s') =
      delete_body comm_ptr (<[comm_ptr := set_ref_count 0 c]> (Comm.comms s)).
Proof.
  intros Hp Hn Hmax. split.
  - intros j Hj. apply release_times_keeps; [assumption.. | lia].
  - cbn [release_times].
    rewrite (release_times_keeps delete_body comm_ptr s c Hp Hmax n) by lia.
    cbn [mbind option_bind]. unfold Comm.MPIR_Comm_release.
    cbn [Comm.comms Comm.delete_calls].
    rewrite (release_ref_decrements comm_ptr _
               (set_ref_count (ref_count c - Z.of_nat n) c)).
    + cbn [mbind option_bind ref_count set_ref_count].
      replace (ref_count c - Z.of_nat n - 1) with 0 by lia.
      cbn [Z.eqb]. rewrite insert_insert_eq.
      unfold Comm.MPIR_Comm_delete_internal. cbn [Comm.comms Comm.delete_calls].
      destruct (delete_body comm_ptr _) as [e h] eqn:Hd.
      eexists e, _. split; [reflexivity |].
      split; reflexivity.
    + apply lookup_insert_eq.
    + apply in_int_range_between. cbn [ref_count set_ref_count].
      unfold INT_MIN, INT_MAX. lia.
Qed.

Lemma release_deletes_at_last_reference_witness :
  (forall j : nat,
     (j <= 2)%nat ->
     release_times (fun p h => (MPI_SUCCESS, delete p h)) j 8 (release_example 3) =
     Some (MPI_SUCCESS,
           {| Comm.comms :=
                <[8 := set_ref_count (ref_count (comm_example 3) - Z.of_nat j)
                         (comm_example 3)]>
                  (Comm.comms (release_example 3));
              Comm.delete_calls := Comm.delete_calls (release_example 3) |})) /\
  exists e s',
    release_times (fun p h => (MPI_SUCCESS, delete p h)) 3 8 (release_example 3)
      = Some (e, s') /\
    Comm.delete_calls s' = Comm.delete_calls (release_example 3) ++ [8] /\
    (e, Comm.comms s') =
      (MPI_SUCCESS,
       delete 8 (<[8 := set_ref_count 0 (comm_example 3)]>
                   (Comm.comms (release_example 3)))).
Proof.
  apply (release_deletes_at_last_reference (fun p h => (MPI_SUCCESS, delete p h))
           8 (release_example 3) (comm_example 3) 2).
  - reflexivity.
  - reflexivity.
  - unfold INT_MAX. simpl. lia.
Defined.

(** X2: on a communicator in use, [MPIR_Comm_add_ref] followed by
    [MPIR_Comm_release] restores the state: the count is as before,
    nothing is deleted and the result is [MPI_SUCCESS]. *)
Theorem add_ref_then_release
    (delete_body : Z -> gmap Z MPIR_Comm -> Z * gmap Z MPIR_Comm)
    (comm_ptr : Z) (s : Comm.comm_state) (c : MPIR_Comm) :
  Comm.comms s !! comm_ptr = Some c ->
  ref_count c <> 0 ->
  INT_MIN <= ref_count c < INT_MAX ->
  (s1 ← add_ref_state comm_ptr s;
   Comm.MPIR_Comm_release delete_body comm_ptr s1) = Some (MPI_SUCCESS, s).
Proof.
  intros Hp Hnz Hrange.
  unfold add_ref_state, Comm.MPIR_Comm_add_ref, Comm.MPIR_Object_add_ref.
  rewrite Hp. cbn [mbind option_bind].
  rewrite in_int_range_between by (unfold INT_MIN, INT_MAX in *; lia).
  cbn [mbind option_bind]. unfold Comm.MPIR_Comm_release.
  cbn [Comm.comms Comm.delete_calls].
  rewrite (release_ref_decrements comm_ptr _ (set_ref_count (ref_count c + 1) c)).
  - cbn [mbind option_bind]. rewrite set_ref_count_twice.
    change (ref_count (set_ref_count (ref_count c + 1) c)) with (ref_count c + 1).
    replace (ref_count c + 1 - 1) with (ref_count c) by lia.
    destruct (Z.eqb_spec (ref_count c) 0) as [H0 | _]; [contradiction |].
    rewrite insert_insert_eq, set_ref_count_same, (insert_id _ _ _ Hp).
    now destruct s.
  - apply lookup_insert_eq.
  - apply in_int_range_between. cbn [ref_count set_ref_count].
    unfold INT_MIN, INT_MAX in *. lia.
Qed.

Lemma add_ref_then_release_witness :
  (s1 ← add_ref_state 8 (release_example 1);
   Comm.MPIR_Comm_release (fun p h => (MPI_SUCCESS, delete p h)) 8 s1)
  = Some (MPI_SUCCESS, release_example 1).
Proof.
  apply (add_ref_then_release (fun p h => (MPI_SUCCESS, delete p h)) 8
           (release_example 1) (comm_example 1)).
  - reflexivity.
  - simpl. lia.
  - unfold INT_MIN, INT_MAX. simpl. lia.
Defined.

(** ** What the parser takes, prints and leaves *)

Section ParserFacts.
Import Async.

Lemma array_set_length (a a' : list (option Z)) (i v : Z) :
  array_set a i v = Some a' -> length a' = length a.
Proof.
  unfold array_set. destruct (_ && _); [| discriminate].
  intros H. injection H as <-. apply length_insert.
Qed.

Lemma default_affinity_loop_length (n : nat) :
  forall i P a a',
    default_affinity_loop n i P a = Some a' -> length a' = length a.
Proof.
  induction n as [| n IH]; intros i P a a' Hrun.
  - cbn in Hrun. congruence.
  - cbn [default_affinity_loop] in Hrun.
    destruct (if Libc.to_size_t i <? P then _ else _) as [a1 |] eqn:Hstep;
      [| discriminate].
    cbn [mbind option_bind] in Hrun. apply IH in Hrun. rewrite Hrun.
    destruct (Libc.to_size_t i <? P).
    + eapply array_set_length, Hstep.
    + destruct (P =? 0); [discriminate |].
      destruct (array_get a _) as [v |]; [| discriminate].
      eapply array_set_length, Hstep.
Qed.

(** How the loop over the entries ends: with all [n] entries read and
    nothing printed, or with [MPI_ERR_OTHER] and one of its two
    messages. *)
Lemma parse_affinity_loop_outcome (n : nat) :
  forall i rc tmp a N aff e rc' a' out,
    parse_affinity_loop n i rc tmp a N aff = Some (e, rc', a', out) ->
    length a' = length a /\
    ((e = MPI_SUCCESS /\ rc' = rc + Z.of_nat n /\ out = [])
     \/ (e = MPI_ERR_OTHER /\
         exists m, out = [Ev_printf m] /\ is_loop_message m = true)).
Proof.
  induction n as [| n IH]; intros i rc tmp a N aff e rc' a' out Hrun.
  - cbn in Hrun. injection Hrun as <- <- <- <-.
    split; [reflexivity |]. left. repeat split. lia.
  - cbn [parse_affinity_loop] in Hrun.
    destruct (Libc.MPL_strsep tmp affinity_delim) as [[tok |] tmp'].
    + destruct (Libc.atoi tok) as [v |]; [| discriminate].
      cbn [mbind option_bind] in Hrun. destruct (v <? 0).
      * injection Hrun as <- <- <- <-. split; [reflexivity |]. right. eauto.
      * destruct (array_set a i v) as [a1 |] eqn:Hset; [| discriminate].
        cbn [mbind option_bind] in Hrun.
        destruct (IH _ _ _ _ _ _ _ _ _ _ Hrun) as [Hlen Hcases].
        split; [rewrite Hlen; eapply array_set_length, Hset |].
        destruct Hcases as [(-> & -> & ->) | Herr]; [left | right; assumption].
        repeat split. lia.
    + injection Hrun as <- <- <- <-. split; [reflexivity |]. right. eauto.
Qed.

Lemma parse_outcome_shape (cfg : config) (a : list (option Z)) (N e : Z)
    (a' : list (option Z)) (out : list event) :
  MPIDI_parse_progress_thread_affinity cfg a N = Some (e, a', out) ->
  length a' = length a /\
  ((e = MPI_SUCCESS /\ out = [])
   \/ (e = MPI_ERR_OTHER /\
       exists m, out = [Ev_printf m] /\ is_loop_message m = true)).
Proof.
  unfold MPIDI_parse_progress_thread_affinity.
  assert (Hdefault : forall P,
            (a0 ← default_affinity_loop (Z.to_nat N) 0 P a;
             Some (MPI_SUCCESS, a0, [])) = Some (e, a', out) ->
            length a' = length a /\
            ((e = MPI_SUCCESS /\ out = [])
             \/ (e = MPI_ERR_OTHER /\
                 exists m, out = [Ev_printf m] /\ is_loop_message m = true))).
  { intros P H.
    destruct (default_affinity_loop _ _ _ _) as [a0 |] eqn:Hloop; [| discriminate].
    injection H as <- <- <-.
    split; [eapply default_affinity_loop_length, Hloop | now left]. }
  destruct (MPIR_CVAR_CH4_PROGRESS_THREAD_AFFINITY cfg) as [aff |];
    [| apply Hdefault].
  destruct (Libc.strlen aff =? 0); [apply Hdefault |].
  destruct (parse_affinity_loop _ _ _ _ _ _ _) as [[[[e1 rc1] a1] out1] |] eqn:Hloop;
    [| discriminate].
  cbn [mbind option_bind].
  destruct (parse_affinity_loop_outcome _ _ _ _ _ _ _ _ _ _ _ Hloop)
    as [Hlen [(-> & -> & ->) | (-> & m & -> & Hm)]].
  - change (MPI_SUCCESS =? MPI_SUCCESS) with true. cbv iota.
    destruct (Z.ltb_spec (0 + Z.of_nat (Z.to_nat N)) N) as [Hlt | _]; [lia |].
    intros H. injection H as <- <- <-. split; [assumption | now left].
  - change (MPI_ERR_OTHER =? MPI_SUCCESS) with false. cbv iota.
    intros H. injection H as <- <- <-. split; [assumption |]. right. eauto.
Qed.

(** The loop on entries that it takes. *)
Lemma parse_affinity_loop_accepts (n : nat) :
  forall (rc : Z) (tmp : option string) (done : list (option Z)) (N : Z)
         (aff : string),
    (n <= length (entries_left tmp))%nat ->
    forallb accepted_entry (take n (entries_left tmp)) = true ->
    parse_affinity_loop n (Z.of_nat (length done)) rc tmp
      (done ++ replicate n None) N aff =
    Some (MPI_SUCCESS, rc + Z.of_nat n,
          done ++ map (fun e => Some (entry_value e)) (take n (entries_left tmp)),
          []).
Proof.
  induction n as [| n IH]; intros rc tmp done N aff Hlen Hacc.
  - cbn. now rewrite Z.add_0_r.
  - cbn [parse_affinity_loop replicate].
    pose proof (MPL_strsep_entries tmp) as Hsep.
    destruct (Libc.MPL_strsep tmp affinity_delim) as [[tok |] tmp'].
    + rewrite Hsep in Hlen, Hacc |- *. cbn [take forallb length map] in *.
      apply andb_prop in Hacc as [Htok Hacc].
      unfold accepted_entry in Htok. unfold entry_value at 1.
      destruct (Libc.atoi tok) as [v |]; [| discriminate].
      cbn [mbind option_bind default].
      apply Z.leb_le in Htok.
      destruct (Z.ltb_spec v 0) as [Hneg | _]; [lia |].
      rewrite array_set_next. cbn [mbind option_bind].
      replace (Z.of_nat (length done) + 1)
        with (Z.of_nat (length (done ++ [Some v])))
        by (rewrite length_app; cbn [length]; lia).
      rewrite (IH (rc + 1) tmp' (done ++ [Some v]) N aff); [| lia | assumption].
      rewrite <- app_assoc. cbn [app].
      replace (rc + 1 + Z.of_nat n) with (rc + Z.of_nat (S n)) by lia.
      reflexivity.
    + rewrite Hsep in Hlen. cbn in Hlen. lia.
Qed.

End ParserFacts.

(** X3: the parser takes a non-empty affinity string whenever it has at
    least [N] entries and [atoi] reads each of the first [N] as a number
    of [int] that is not negative: the table is what [atoi] reads of these
    entries, in order.  What stands after the [N]-th entry is not looked
    at, and an entry without digits counts as 0. *)
Theorem parse_accepts_first_entries (cfg : Async.config) (aff : string) (N : Z) :
  Async.MPIR_CVAR_CH4_PROGRESS_THREAD_AFFINITY cfg = Some aff ->
  0 < Libc.strlen aff ->
  (Z.to_nat N <= length (entries aff))%nat ->
  forallb accepted_entry (take (Z.to_nat N) (entries aff)) = true ->
  Async.MPIDI_parse_progress_thread_affinity cfg (Async.MPL_malloc N) N =
  Some (MPI_SUCCESS,
        map (fun e => Some (entry_value e)) (take (Z.to_nat N) (entries aff)),
        []).
Proof.
  intros Haff Hlen Hcount Hacc.
  unfold Async.MPIDI_parse_progress_thread_affinity. rewrite Haff.
  destruct (Z.eqb_spec (Libc.strlen aff) 0) as [H0 | _]; [lia |].
  pose proof (parse_affinity_loop_accepts (Z.to_nat N) 0 (Some aff) [] N aff
                Hcount Hacc) as Hloop.
  cbn [length app] in Hloop. change (Z.of_nat 0) with 0 in Hloop.
  unfold Async.MPL_malloc. rewrite Hloop. cbn [mbind option_bind].
  change (MPI_SUCCESS =? MPI_SUCCESS) with true. cbv iota.
  destruct (Z.ltb_spec (0 + Z.of_nat (Z.to_nat N)) N) as [Hlt | _];
    [lia | reflexivity].
Qed.

Lemma parse_accepts_first_entries_witness :
  Async.MPIDI_parse_progress_thread_affinity
    (example_config (Some "3,x,,7") 3 0 4 3 0) (Async.MPL_malloc 3) 3 =
  Some (MPI_SUCCESS,
        map (fun e => Some (entry_value e)) (take (Z.to_nat 3) (entries "3,x,,7")),
        []).
Proof.
  apply (parse_accepts_first_entries (example_config (Some "3,x,,7") 3 0 4 3 0)
           "3,x,,7" 3).
  - reflexivity.
  - reflexivity.
  - vm_compute. lia.
  - reflexivity.
Defined.

Example parse_reads_malformed_entries_as_zero :
  Async.MPIDI_parse_progress_thread_affinity
    (example_config (Some "3,x,,7") 3 0 4 3 0) (Async.MPL_malloc 3) 3 =
  Some (MPI_SUCCESS, [Some 3; Some 0; Some 0], []).
Proof. reflexivity. Qed.

(** X4: the test after the loop of the parser never fails: whenever the
    parser returns, it has not printed the message "unexpected number of
    processors"; a string that is too short is reported by the loop, as
    an unexpected end. *)
Theorem unexpected_number_never_printed (cfg : Async.config)
    (a : list (option Z)) (N e : Z) (a' : list (option Z))
    (out : list Async.event) :
  Async.MPIDI_parse_progress_thread_affinity cfg a N = Some (e, a', out) ->
  forall aff, Async.Ev_printf (Async.Msg_unexpected_number aff) ∉ out.
Proof.
  intros Hparse aff Hin.
  destruct (parse_outcome_shape cfg a N e a' out Hparse)
    as [_ [(_ & ->) | (_ & m & -> & Hm)]].
  - now apply elem_of_nil in Hin.
  - apply list_elem_of_singleton in Hin. injection Hin as <-. discriminate.
Qed.

Lemma unexpected_number_never_printed_witness :
  Async.Ev_printf (Async.Msg_unexpected_number "0")
  ∉ [Async.Ev_printf (Async.Msg_unexpected_end 2 1 "0")].
Proof.
  apply (unexpected_number_never_printed (example_config (Some "0") 2 0 4 3 0)
           (Async.MPL_malloc 2) 2 MPI_ERR_OTHER [Some 0; None]).
  reflexivity.
Defined.

(** X5: whenever the parser returns, the table has the length it had;
    the result is [MPI_SUCCESS] with nothing printed, or [MPI_ERR_OTHER]
    with exactly one message printed. *)
Theorem parse_outcome (cfg : Async.config) (a : list (option Z)) (N e : Z)
    (a' : list (option Z)) (out : list Async.event) :
  Async.MPIDI_parse_progress_thread_affinity cfg a N = Some (e, a', out) ->
  length a' = length a /\
  ((e = MPI_SUCCESS /\ out = [])
   \/ (e = MPI_ERR_OTHER /\ exists m, out = [Async.Ev_printf m])).
Proof.
  intros Hparse.
  destruct (parse_outcome_shape cfg a N e a' out Hparse)
    as [Hlen [Hok | (He & m & Hout & _)]].
  - split; [assumption | now left].
  - split; [assumption |]. right. eauto.
Qed.

Lemma parse_outcome_witness :
  length [Some 0; None] = length (Async.MPL_malloc 2) /\
  ((MPI_ERR_OTHER = MPI_SUCCESS
    /\ [Async.Ev_printf (Async.Msg_unexpected_proc_id "-4" "0,-4")] = [])
   \/ (MPI_ERR_OTHER = MPI_ERR_OTHER /\
       exists m,
         [Async.Ev_printf (Async.Msg_unexpected_proc_id "-4" "0,-4")]
         = [Async.Ev_printf m])).
Proof.
  apply (parse_outcome (example_config (Some "0,-4") 2 0 4 3 0)
           (Async.MPL_malloc 2) 2).
  reflexivity.
Defined.

(** ** The default affinity *)

(** X6: the default affinity gives every thread slot a processor that
    exists, between 0 and [P - 1]; two slots get the same processor only
    when they are equal modulo [P], so with no more slots than processors
    no processor is given twice. *)
Theorem default_affinity_in_range_and_spread (cfg : Async.config) (N : Z) :
  Async.affinity_given cfg = false ->
  1 <= Async.MPL_get_nprocs cfg <= INT_MAX ->
  N <= INT_MAX ->
  exists a,
    Async.MPIDI_parse_progress_thread_affinity cfg (Async.MPL_malloc N) N
      = Some (MPI_SUCCESS, a, []) /\
    (forall t, 0 <= t < N ->
       exists p, Async.array_get a t = Some p
                 /\ 0 <= p < Async.MPL_get_nprocs cfg) /\
    (forall t1 t2 p,
       0 <= t1 < N -> 0 <= t2 < N ->
       Async.array_get a t1 = Some p -> Async.array_get a t2 = Some p ->
       t1 mod Async.MPL_get_nprocs cfg = t2 mod Async.MPL_get_nprocs cfg) /\
    (N <= Async.MPL_get_nprocs cfg ->
     forall t1 t2 p,
       0 <= t1 < N -> 0 <= t2 < N ->
       Async.array_get a t1 = Some p -> Async.array_get a t2 = Some p ->
       t1 = t2).
Proof.
  intros Hnone HP HN. set (P := Async.MPL_get_nprocs cfg) in *.
  rewrite parse_without_affinity by assumption. fold P.
  assert (HPmax : INT_MAX < 2 ^ 64) by (unfold INT_MAX; lia).
  rewrite to_size_t_small by lia.
  destruct (default_affinity_loop_spec P HP (Z.to_nat N) 0 (Async.MPL_malloc N))
    as (a & Hrun & _ & Hget);
    [lia | rewrite length_MPL_malloc; lia | lia | intros j Hj; lia |].
  exists a. rewrite Hrun. cbn [mbind option_bind].
  split; [reflexivity |].
  assert (Hslot : forall t, 0 <= t < N ->
            Async.array_get a t = Some (default_proc P t)).
  { intros t Ht. apply Hget. lia. }
  assert (Hsame : forall t1 t2 p,
            0 <= t1 < N -> 0 <= t2 < N ->
            Async.array_get a t1 = Some p -> Async.array_get a t2 = Some p ->
            t1 mod P = t2 mod P).
  { intros t1 t2 p H1 H2. rewrite !Hslot by assumption. unfold default_proc.
    intros E1 E2. injection E1 as <-. injection E2 as E2. lia. }
  split; [| split; [exact Hsame |]].
  - intros t Ht. exists (default_proc P t). split; [now apply Hslot |].
    unfold default_proc. pose proof (Z.mod_pos_bound t P ltac:(lia)). lia.
  - intros HNP t1 t2 p H1 H2 E1 E2.
    pose proof (Hsame t1 t2 p H1 H2 E1 E2) as Hmod.
    rewrite !Z.mod_small in Hmod by lia. exact Hmod.
Qed.

Lemma default_affinity_in_range_and_spread_witness :
  exists a,
    Async.MPIDI_parse_progress_thread_affinity
      (example_config None 3 0 4 3 0) (Async.MPL_malloc 3) 3
      = Some (MPI_SUCCESS, a, []) /\
    (forall t, 0 <= t < 3 ->
       exists p, Async.array_get a t = Some p /\ 0 <= p < 4) /\
    (forall t1 t2 p,
       0 <= t1 < 3 -> 0 <= t2 < 3 ->
       Async.array_get a t1 = Some p -> Async.array_get a t2 = Some p ->
       t1 mod 4 = t2 mod 4) /\
    (3 <= 4 ->
     forall t1 t2 p,
       0 <= t1 < 3 -> 0 <= t2 < 3 ->
       Async.array_get a t1 = Some p -> Async.array_get a t2 = Some p ->
       t1 = t2).
Proof.
  apply (default_affinity_in_range_and_spread (example_config None 3 0 4 3 0) 3).
  - reflexivity.
  - simpl. unfold INT_MAX. lia.
  - unfold INT_MAX. lia.
Defined.

(** X7: when [MPL_get_nprocs] answers 0 and no affinity string is given,
    the default affinity of a table with at least one slot is undefined:
    the first turn of the loop takes [th_idx % proc_count] with
    [proc_count] zero. *)
Theorem default_affinity_without_processors (cfg : Async.config)
    (a : list (option Z)) (N : Z) :
  Async.affinity_given cfg = false ->
  Async.MPL_get_nprocs cfg = 0 ->
  1 <= N ->
  Async.MPIDI_parse_progress_thread_affinity cfg a N = None.
Proof.
  intros Hnone HP HN. rewrite parse_without_affinity by assumption.
  rewrite HP. destruct (Z.to_nat N) as [| n] eqn:Hn; [lia |].
  reflexivity.
Qed.

Lemma default_affinity_without_processors_witness :
  Async.MPIDI_parse_progress_thread_affinity
    (example_config None 2 0 0 3 0) (Async.MPL_malloc 2) 2 = None.
Proof.
  apply (default_affinity_without_processors (example_config None 2 0 0 3 0)
           (Async.MPL_malloc 2) 2).
  - reflexivity.
  - reflexivity.
  - lia.
Defined.

(** ** What a start changes *)

Section StartFacts.
Import Async.

(** The two ways in which [MPIR_Init_async_thread] returns: without a
    thread and with an error, or with the thread that
    [MPID_Thread_create] has made. *)
Lemma init_cases (cfg : config) (s : state) (e : Z) (s' : state) :
  MPIR_Init_async_thread cfg s = Some (e, s') ->
  (e = MPI_ERR_OTHER /\ exists evs, s' = emit evs s)
  \/ (exists tid evs,
        MPID_Thread_create cfg = (0, tid) /\ s' = spawned tid evs s /\
        (e = MPI_SUCCESS \/ e = MPI_ERR_OTHER)).
Proof.
  destruct (MPIDI_parse_progress_thread_affinity cfg
              (MPL_malloc (table_size cfg)) (table_size cfg))
    as [[[e0 a] out] |] eqn:Hparse.
  2: { rewrite MPIR_Init_async_thread_unfold, Hparse. discriminate. }
  destruct (Z.eq_dec e0 0) as [-> | He0].
  2: { rewrite (init_parse_failure cfg s e0 a out Hparse He0).
       intros H. injection H as <- <-. left. eauto. }
  destruct (MPID_Thread_create cfg) as [err tid] eqn:Hcreate.
  destruct (Z.eq_dec err 0) as [-> | Herr].
  2: { rewrite (init_create_failure cfg s a out err tid Hparse Hcreate Herr).
       intros H. injection H as <- <-. left. eauto. }
  destruct (array_get a (table_index cfg)) as [proc_id |] eqn:Hget.
  2: { rewrite MPIR_Init_async_thread_unfold, Hparse.
       cbn [mbind option_bind Z.eqb negb].
       unfold thread_create. rewrite Hcreate. cbn [Z.eqb negb].
       rewrite Hget. discriminate. }
  rewrite (init_thread_created cfg s a out tid proc_id Hparse Hcreate Hget).
  intros H. injection H as <- <-. right. exists tid. eexists.
  split; [reflexivity |]. split; [reflexivity |].
  destruct (_ && _); tauto.
Qed.

Lemma filter_out_fresh (tid : Z) (l : list Z) :
  tid ∉ l -> filter (fun t => t ≠ tid) (tid :: l) = l.
Proof.
  intros Hfresh. rewrite filter_cons_False by (intros H; now apply H).
  induction l as [| x l IH]; [reflexivity |].
  apply not_elem_of_cons in Hfresh as [Hx Hl].
  rewrite filter_cons_True by congruence. now rewrite IH.
Qed.

End StartFacts.

(** X8: [MPIR_Init_async_thread] never writes [async_done] nor
    [MPIR_async_thread_initialized], and returns [MPI_SUCCESS] or
    [MPI_ERR_OTHER].  It makes one thread at most: either the running
    threads and [progress_thread_id] are as before and the result is an
    error, or the thread that [MPID_Thread_create] made has been added
    and [progress_thread_id] holds its id; a success is of the second
    kind. *)
Theorem init_makes_at_most_one_thread (cfg : Async.config) (s : Async.state)
    (e : Z) (s' : Async.state) :
  Async.MPIR_Init_async_thread cfg s = Some (e, s') ->
  Async.async_done s' = Async.async_done s /\
  Async.MPIR_async_thread_initialized s' = Async.MPIR_async_thread_initialized s /\
  (e = MPI_SUCCESS \/ e = MPI_ERR_OTHER) /\
  ((e = MPI_ERR_OTHER /\
    Async.running s' = Async.running s /\
    Async.progress_thread_id s' = Async.progress_thread_id s)
   \/ (exists tid,
         Async.MPID_Thread_create cfg = (0, tid) /\
         Async.running s' = tid :: Async.running s /\
         Async.progress_thread_id s' = tid)).
Proof.
  intros Hrun.
  destruct (init_cases cfg s e s' Hrun)
    as [(-> & evs & ->) | (tid & evs & Hcreate & -> & He)].
  - repeat (split; [reflexivity || (right; reflexivity) |]). left. now repeat split.
  - repeat (split; [reflexivity || assumption |]). right. exists tid. now repeat split.
Qed.

Lemma init_makes_at_most_one_thread_witness :
  Async.async_done clique_started = Async.async_done Async.initial_state /\
  Async.MPIR_async_thread_initialized clique_started
  = Async.MPIR_async_thread_initialized Async.initial_state /\
  (MPI_SUCCESS = MPI_SUCCESS \/ MPI_SUCCESS = MPI_ERR_OTHER) /\
  ((MPI_SUCCESS = MPI_ERR_OTHER /\
    Async.running clique_started = Async.running Async.initial_state /\
    Async.progress_thread_id clique_started
    = Async.progress_thread_id Async.initial_state)
   \/ (exists tid,
         Async.MPID_Thread_create clique_config = (0, tid) /\
         Async.running clique_started = tid :: Async.running Async.initial_state /\
         Async.progress_thread_id clique_started = tid)).
Proof.
  apply (init_makes_at_most_one_thread clique_config Async.initial_state
           MPI_SUCCESS clique_started).
  reflexivity.
Defined.

(** X9: without an affinity string, with at least one processor, an
    index inside the table and a thread that [MPID_Thread_create] makes,
    [MPIR_Init_async_thread] returns [MPI_SUCCESS] whatever the pinning
    answers; the thread is pinned to processor
    [P - 1 - affinity_idx mod P]. *)
Theorem init_succeeds_with_default_affinity (cfg : Async.config)
    (s : Async.state) (tid : Z) :
  Async.affinity_given cfg = false ->
  1 <= Async.MPL_get_nprocs cfg <= INT_MAX ->
  0 <= table_index cfg < table_size cfg ->
  table_size cfg <= INT_MAX ->
  Async.MPID_Thread_create cfg = (0, tid) ->
  let proc_id :=
    Async.MPL_get_nprocs cfg - 1 - table_index cfg mod Async.MPL_get_nprocs cfg in
  Async.MPIR_Init_async_thread cfg s =
  Some (MPI_SUCCESS,
        spawned tid
          [Async.Ev_malloc (table_size cfg);
           Async.Ev_thread_create 0 tid;
           Async.Ev_set_affinity tid (table_index cfg) proc_id
             (Async.MPL_thread_set_affinity cfg tid proc_id);
           Async.Ev_free] s).
Proof.
  intros Hnone HP Hidx Hsize Hcreate proc_id.
  set (P := Async.MPL_get_nprocs cfg) in *.
  assert (HPmax : INT_MAX < 2 ^ 64) by (unfold INT_MAX; lia).
  destruct (default_affinity_loop_spec P HP (Z.to_nat (table_size cfg)) 0
              (Async.MPL_malloc (table_size cfg)))
    as (a & Hrun & _ & Hget);
    [lia | rewrite length_MPL_malloc; lia | lia | intros j Hj; lia |].
  assert (Hparse : Async.MPIDI_parse_progress_thread_affinity cfg
                     (Async.MPL_malloc (table_size cfg)) (table_size cfg)
                   = Some (0, a, [])).
  { rewrite parse_without_affinity by assumption. fold P.
    rewrite to_size_t_small by lia. now rewrite Hrun. }
  assert (Hcell : Async.array_get a (table_index cfg) = Some proc_id)
    by (apply Hget; lia).
  rewrite (init_thread_created cfg s a [] tid proc_id Hparse Hcreate Hcell).
  rewrite Hnone. cbn [andb app].
  unfold events_before_parse. rewrite Hnone, andb_false_r. reflexivity.
Qed.

Lemma init_succeeds_with_default_affinity_witness :
  Async.MPIR_Init_async_thread (example_config None 6 5 4 3 22)
    Async.initial_state =
  Some (MPI_SUCCESS,
        spawned 7
          [Async.Ev_malloc 6; Async.Ev_thread_create 0 7;
           Async.Ev_set_affinity 7 5 (4 - 1 - 5 mod 4) 22; Async.Ev_free]
          Async.initial_state).
Proof.
  apply (init_succeeds_with_default_affinity (example_config None 6 5 4 3 22)
           Async.initial_state 7).
  - reflexivity.
  - simpl. unfold INT_MAX. lia.
  - vm_compute. split; [discriminate | reflexivity].
  - vm_compute. discriminate.
  - reflexivity.
Defined.

(** X10: the warning that an affinity string cannot work with cliques is
    written to [stderr] exactly when a clique override is active and a
    non-empty affinity string is given; it is the first thing done, it
    is written once, and the start goes on to allocate the table. *)
Theorem clique_warning_is_first_and_not_fatal (cfg : Async.config)
    (s : Async.state) (e : Z) (s' : Async.state) :
  Async.MPIR_Init_async_thread cfg s = Some (e, s') ->
  exists evs,
    Async.trace s' =
      Async.trace s
      ++ (if clique_override cfg && Async.affinity_given cfg
          then [Async.Ev_fprintf_stderr Async.Msg_cliques_affinity_conflict]
          else [])
      ++ Async.Ev_malloc (table_size cfg) :: evs /\
    (forall m, Async.Ev_fprintf_stderr m ∉ evs).
Proof.
  intros Hrun.
  destruct (init_events cfg s e s' Hrun) as (out & tl & Htrace & Hout & Htl & _).
  exists (out ++ tl). split.
  - rewrite Htrace. unfold events_before_parse. now rewrite <- !app_assoc.
  - intros m Hin. apply elem_of_app in Hin as [Hin | Hin].
    + pose proof (printf_is_not_other out _ Hout Hin). discriminate.
    + destruct (Htl _ Hin) as [H | [(? & ? & H) | (? & ? & ? & H)]];
        discriminate.
Qed.

Lemma clique_warning_is_first_and_not_fatal_witness :
  exists evs,
    Async.trace clique_started =
      Async.trace Async.initial_state
      ++ (if clique_override clique_config && Async.affinity_given clique_config
          then [Async.Ev_fprintf_stderr Async.Msg_cliques_affinity_conflict]
          else [])
      ++ Async.Ev_malloc (table_size clique_config) :: evs /\
    (forall m, Async.Ev_fprintf_stderr m ∉ evs).
Proof.
  apply (clique_warning_is_first_and_not_fatal clique_config Async.initial_state
           MPI_SUCCESS clique_started).
  reflexivity.
Defined.

(** ** Start and stop together *)

(** X11: with the device that forwards, when async progress is
    requested at [MPI_THREAD_MULTIPLE] and [MPIR_Init_async_thread]
    succeeds with a thread id that was not in use, [MPII_init_async] sets
    [MPIR_async_thread_initialized] and leaves that thread running;
    [MPII_finalize_async] then stores the stop flag, joins that thread
    and returns [MPI_SUCCESS], and the running threads are those from
    before the start. *)
Theorem start_then_stop (cfg : Async.config) (s s1 : Async.state) :
  Async.MPIR_CVAR_ASYNC_PROGRESS cfg <> 0 ->
  Async.thread_provided cfg = MPI_THREAD_MULTIPLE ->
  Async.MPIR_Init_async_thread cfg s = Some (MPI_SUCCESS, s1) ->
  Async.progress_thread_id s1 ∉ Async.running s ->
  exists s2 s3,
    Async.MPII_init_async (H := Async.forwarding_device) cfg s
      = Some (MPI_SUCCESS, s2) /\
    Async.MPIR_async_thread_initialized s2 = 1 /\
    Async.running s2 = Async.progress_thread_id s2 :: Async.running s /\
    Async.MPII_finalize_async (H := Async.forwarding_device) cfg s2
      = Some (MPI_SUCCESS, s3) /\
    Async.async_done s3 = 1 /\
    Async.running s3 = Async.running s /\
    Async.trace s3 =
      Async.trace s1 ++ [Async.Ev_atomic_store 1;
                         Async.Ev_thread_join (Async.progress_thread_id s2)].
Proof.
  intros Hreq Hlevel Hinit Hfresh.
  destruct (init_cases cfg s _ s1 Hinit)
    as [(He & _) | (tid & evs & Hcreate & -> & _)]; [discriminate |].
  cbn [Async.progress_thread_id spawned] in Hfresh.
  eexists (Async.set_initialized 1 (spawned tid evs s)), _.
  split.
  { unfold Async.MPII_init_async. apply Z.eqb_neq in Hreq. rewrite Hreq.
    rewrite Hlevel. cbn [negb]. change (MPI_THREAD_MULTIPLE =? MPI_THREAD_MULTIPLE) with true.
    cbv iota. cbn [Async.MPID_Init_async_thread Async.forwarding_device].
    rewrite Hinit. reflexivity. }
  split; [reflexivity |]. split; [reflexivity |].
  split; [reflexivity |]. split; [reflexivity |].
  split; [| reflexivity].
  cbn [Async.running Async.set_initialized spawned Async.progress_thread_id].
  now apply filter_out_fresh.
Qed.

Lemma start_then_stop_witness :
  exists s2 s3,
    Async.MPII_init_async (H := Async.forwarding_device) clique_config
      Async.initial_state = Some (MPI_SUCCESS, s2) /\
    Async.MPIR_async_thread_initialized s2 = 1 /\
    Async.running s2
    = Async.progress_thread_id s2 :: Async.running Async.initial_state /\
    Async.MPII_finalize_async (H := Async.forwarding_device) clique_config s2
      = Some (MPI_SUCCESS, s3) /\
    Async.async_done s3 = 1 /\
    Async.running s3 = Async.running Async.initial_state /\
    Async.trace s3 =
      Async.trace clique_started
      ++ [Async.Ev_atomic_store 1;
          Async.Ev_thread_join (Async.progress_thread_id s2)].
Proof.
  apply (start_then_stop clique_config Async.initial_state clique_started).
  - simpl. lia.
  - reflexivity.
  - reflexivity.
  - simpl. apply not_elem_of_nil.
Defined.

(** X12: with the device that forwards, from a state in which
    [MPIR_async_thread_initialized] is unset, [MPII_init_async] sets it
    exactly when async progress is requested at [MPI_THREAD_MULTIPLE] and
    the start succeeds; and when it is set, [progress_thread_id] names a
    running thread.  After a start that failed the flag is unset, so that
    [MPII_finalize_async] joins nothing. *)
Theorem initialized_flag_tells_success (cfg : Async.config)
    (s : Async.state) (e : Z) (s' : Async.state) :
  Async.MPIR_async_thread_initialized s = 0 ->
  Async.MPII_init_async (H := Async.forwarding_device) cfg s = Some (e, s') ->
  (Async.MPIR_async_thread_initialized s' <> 0 <->
   e = MPI_SUCCESS /\ Async.MPIR_CVAR_ASYNC_PROGRESS cfg <> 0
   /\ Async.thread_provided cfg = MPI_THREAD_MULTIPLE) /\
  (Async.MPIR_async_thread_initialized s' <> 0 ->
   Async.progress_thread_id s' ∈ Async.running s') /\
  (e <> MPI_SUCCESS ->
   Async.MPII_finalize_async (H := Async.forwarding_device) cfg s'
   = Some (MPI_SUCCESS, s')).
Proof.
  intros Hflag. unfold Async.MPII_init_async.
  destruct (Z.eqb_spec (Async.MPIR_CVAR_ASYNC_PROGRESS cfg) 0) as [Hreq | Hreq];
    cbn [negb].
  { intros H. injection H as <- <-. rewrite Hflag.
    split; [split; [intros H; now contradiction H | intros (_ & H & _); contradiction] |].
    split; [intros H; now contradiction H | intros H; now contradiction H]. }
  destruct (Z.eqb_spec (Async.thread_provided cfg) MPI_THREAD_MULTIPLE)
    as [Hlevel | Hlevel].
  2: { intros H. injection H as <- <-. cbn [Async.MPIR_async_thread_initialized Async.emit].
       rewrite Hflag.
       split; [split; [intros H; now contradiction H | intros (_ & _ & H); contradiction] |].
       split; [intros H; now contradiction H | intros H; now contradiction H]. }
  cbn [Async.MPID_Init_async_thread Async.forwarding_device].
  destruct (Async.MPIR_Init_async_thread cfg s) as [[e1 s1] |] eqn:Hinit;
    [| discriminate].
  cbn [mbind option_bind].
  destruct (init_cases cfg s e1 s1 Hinit)
    as [(-> & evs & ->) | (tid & evs & Hcreate & -> & [-> | ->])].
  - cbn. intros H. injection H as <- <-. cbn. rewrite Hflag.
    split; [split; [intros H; now contradiction H | intros (H & _); discriminate] |].
    split; [intros H; now contradiction H |].
    intros _. apply MPII_finalize_async_not_initialized. exact Hflag.
  - cbn. intros H. injection H as <- <-. cbn.
    split; [split; [intros _; now repeat split | discriminate] |].
    split; [intros _; apply elem_of_cons; now left |].
    intros H; now contradiction H.
  - cbn. intros H. injection H as <- <-. cbn. rewrite Hflag.
    split; [split; [intros H; now contradiction H | intros (H & _); discriminate] |].
    split; [intros H; now contradiction H |].
    intros _. apply MPII_finalize_async_not_initialized. exact Hflag.
Qed.

Lemma initialized_flag_tells_success_witness :
  (Async.MPIR_async_thread_initialized
     (spawned 7 [Async.Ev_malloc 1; Async.Ev_thread_create 0 7;
                 Async.Ev_set_affinity 7 0 0 22; Async.Ev_free]
        Async.initial_state) <> 0 <->
   MPI_ERR_OTHER = MPI_SUCCESS
   /\ Async.MPIR_CVAR_ASYNC_PROGRESS (example_config (Some "0") 1 0 4 3 22) <> 0
   /\ Async.thread_provided (example_config (Some "0") 1 0 4 3 22)
      = MPI_THREAD_MULTIPLE) /\
  (Async.MPIR_async_thread_initialized
     (spawned 7 [Async.Ev_malloc 1; Async.Ev_thread_create 0 7;
                 Async.Ev_set_affinity 7 0 0 22; Async.Ev_free]
        Async.initial_state) <> 0 ->
   Async.progress_thread_id
     (spawned 7 [Async.Ev_malloc 1; Async.Ev_thread_create 0 7;
                 Async.Ev_set_affinity 7 0 0 22; Async.Ev_free]
        Async.initial_state)
   ∈ Async.running
       (spawned 7 [Async.Ev_malloc 1; Async.Ev_thread_create 0 7;
                   Async.Ev_set_affinity 7 0 0 22; Async.Ev_free]
          Async.initial_state)) /\
  (MPI_ERR_OTHER <> MPI_SUCCESS ->
   Async.MPII_finalize_async (H := Async.forwarding_device)
     (example_config (Some "0") 1 0 4 3 22)
     (spawned 7 [Async.Ev_malloc 1; Async.Ev_thread_create 0 7;
                 Async.Ev_set_affinity 7 0 0 22; Async.Ev_free]
        Async.initial_state)
   = Some (MPI_SUCCESS,
           spawned 7 [Async.Ev_malloc 1; Async.Ev_thread_create 0 7;
                      Async.Ev_set_affinity 7 0 0 22; Async.Ev_free]
             Async.initial_state)).
Proof.
  apply (initialized_flag_tells_success (example_config (Some "0") 1 0 4 3 22)
           Async.initial_state MPI_ERR_OTHER).
  - reflexivity.
  - reflexivity.
Defined.

(** ** The run of the progress thread *)

Section RunFacts.
Import Progress.

Lemma loop_turns_snoc (k : nat) :
  loop_turns (S k) = loop_turns k ++ [Load 0; Progress_test; CS_YIELD].
Proof.
  induction k as [| k IH]; [reflexivity |].
  cbn [loop_turns] in *. cbn [app]. now rewrite <- IH.
Qed.

Lemma worker_events_snoc_worker (h : list label) (e : wevent) :
  worker_events (h ++ [W e]) = worker_events h ++ [e].
Proof. now rewrite worker_events_app. Qed.

Lemma worker_events_snoc_main (h : list label) (e : mevent) :
  worker_events (h ++ [M e]) = worker_events h.
Proof. rewrite worker_events_app. cbn. apply app_nil_r. Qed.

Lemma on_a_run_worker_step (s s' : sys) :
  on_a_run s -> worker_step s = Some s' -> on_a_run s'.
Proof.
  intros (k & v & Hv & Hrun) Hstep. unfold worker_step in Hstep.
  destruct (progress_fn (async_done s) (worker s)) as [[pc e] |] eqn:Hpc;
    [| discriminate].
  cbn in Hstep. injection Hstep as <-. unfold on_a_run.
  cbn [history worker]. rewrite worker_events_snoc_worker, Hrun. clear Hrun.
  destruct (worker s); cbn [progress_fn] in Hpc.
  - injection Hpc as <- <-. now exists k, v.
  - injection Hpc as <- <-. now exists 0%nat, v.
  - destruct (Z.eqb_spec (async_done s) 0) as [Hz | Hz];
      injection Hpc as <- <-.
    + exists k, v. split; [assumption |]. rewrite Hz.
      cbn [run_up_to]. now rewrite <- !app_assoc.
    + exists k, (async_done s). split; [assumption |].
      cbn [run_up_to]. now rewrite <- !app_assoc.
  - injection Hpc as <- <-. exists k, v. split; [assumption |].
    cbn [run_up_to]. now rewrite <- !app_assoc.
  - injection Hpc as <- <-. exists (S k), v. split; [assumption |].
    cbn [run_up_to]. rewrite loop_turns_snoc. now rewrite <- !app_assoc.
  - injection Hpc as <- <-. exists k, v. split; [assumption |].
    cbn [run_up_to]. now rewrite <- !app_assoc.
  - injection Hpc as <- <-. exists k, v. split; [assumption |].
    cbn [run_up_to]. unfold complete_run. now rewrite <- !app_assoc.
  - discriminate.
Qed.

Lemma on_a_run_finalize_step (s s' : sys) :
  on_a_run s -> finalize_step s = Some s' -> on_a_run s'.
Proof.
  intros (k & v & Hv & Hrun) Hstep. unfold finalize_step in Hstep.
  destruct (main s); [| | discriminate].
  - injection Hstep as <-. exists k, v. cbn [history worker].
    now rewrite worker_events_snoc_main.
  - destruct (worker s) eqn:Hw; try discriminate.
    injection Hstep as <-. exists k, v. cbn [history worker].
    now rewrite worker_events_snoc_main.
Qed.

Lemma on_a_run_reachable (s : sys) : rtc step init s -> on_a_run s.
Proof.
  intros Hreach.
  apply (rtc_ind_r (R := step) (fun s => on_a_run s) init); [| | exact Hreach].
  - exists 0%nat, 1. split; [discriminate | reflexivity].
  - intros y z _ Hstep IH. destruct Hstep as [y z Hw | y z Hm].
    + eapply on_a_run_worker_step; eassumption.
    + eapply on_a_run_finalize_step; eassumption.
Qed.

Lemma run_up_to_prefix (pc : wpc) (k : nat) (v : Z) :
  exists k', run_up_to pc k v `prefix_of` complete_run k' v.
Proof.
  assert (Hk : forall l,
            (exists tl, complete_run k v = l ++ tl) ->
            exists k', l `prefix_of` complete_run k' v) by (intros l H; now exists k).
  assert (HSk : forall l,
            (exists tl, complete_run (S k) v = l ++ tl) ->
            exists k', l `prefix_of` complete_run k' v)
    by (intros l H; now exists (S k)).
  destruct pc; cbn [run_up_to];
    [apply Hk | apply Hk | apply Hk | apply HSk | apply HSk
     | apply Hk | apply Hk | apply Hk];
    unfold complete_run; rewrite ?loop_turns_snoc; eexists;
    rewrite <- ?app_assoc; cbn [app]; reflexivity.
Qed.

(** The worker alone changes neither the flag nor the other thread. *)
Lemma run_worker_frame (n : nat) (s : sys) :
  async_done (run_worker n s) = async_done s /\ main (run_worker n s) = main s.
Proof.
  revert s. induction n as [| n IH]; intros s; cbn [run_worker]; [tauto |].
  destruct (worker_step s) as [s1 |] eqn:Hstep; [| tauto].
  destruct (IH s1) as [-> ->]. unfold worker_step in Hstep.
  destruct (progress_fn _ _) as [[pc e] |]; [| discriminate].
  cbn in Hstep. injection Hstep as <-. tauto.
Qed.

(** Before the store the thread is in its loop or on the way to it. *)
Lemma in_loop_before_store (s : sys) :
  rtc step init s -> main s = At_store -> stop_phase (worker s) = None.
Proof.
  intros Hreach.
  apply (rtc_ind_r (R := step)
           (fun s => main s = At_store -> stop_phase (worker s) = None) init);
    [reflexivity | | exact Hreach].
  intros y z Hy Hstep IH. destruct Hstep as [y z Hw | y z Hm].
  - unfold worker_step in Hw.
    destruct (progress_fn (async_done y) (worker y)) as [[pc e] |] eqn:Hpc;
      [| discriminate].
    cbn in Hw. injection Hw as <-. cbn [main worker]. intros Hmain.
    specialize (IH Hmain).
    destruct (invariant_reachable y Hy) as [_ _ Hinv]. rewrite Hmain in Hinv.
    destruct Hinv as [Hdone _]. rewrite Hdone in Hpc.
    destruct (worker y); cbn in Hpc, IH; try discriminate;
      injection Hpc as <- <-; reflexivity.
  - unfold finalize_step in Hm. destruct (main y); [| | discriminate].
    + injection Hm as <-. discriminate.
    + destruct (worker y); try discriminate. injection Hm as <-. discriminate.
Qed.

(** The join has returned only if the thread has. *)
Lemma returned_when_finalized (s : sys) :
  rtc step init s -> main s = Finalized -> worker s = Returned.
Proof.
  intros Hreach.
  apply (rtc_ind_r (R := step)
           (fun s => main s = Finalized -> worker s = Returned) init);
    [discriminate | | exact Hreach].
  intros y z _ Hstep IH. destruct Hstep as [y z Hw | y z Hm].
  - unfold worker_step in Hw.
    destruct (progress_fn (async_done y) (worker y)) as [[pc e] |] eqn:Hpc;
      [| discriminate].
    cbn in Hw. injection Hw as <-. cbn [main worker]. intros Hmain.
    rewrite (IH Hmain) in Hpc. discriminate.
  - unfold finalize_step in Hm. destruct (main y); [| | discriminate].
    + injection Hm as <-. discriminate.
    + destruct (worker y) eqn:Hw; try discriminate. now injection Hm as <-.
Qed.

Lemma worker_step_unless_returned (s : sys) :
  worker s <> Returned -> exists s', worker_step s = Some s'.
Proof.
  intros Hw. unfold worker_step.
  destruct (worker s); cbn; try (eexists; reflexivity); [| contradiction].
  destruct (async_done s =? 0); eexists; reflexivity.
Qed.

End RunFacts.

(** X13: in every interleaving the events of the progress thread are
    the beginning of a complete run of [progress_fn]: it enters the
    critical section, starts the progress state, makes some turns of its
    loop, each a load that reads 0, one [MPID_Progress_test] and the
    yield of the critical section, then reads a flag that is not zero,
    ends the progress state and leaves the critical section; once the
    thread has returned its events are a complete run. *)
Theorem progress_thread_follows_a_run (s : Progress.sys) :
  rtc Progress.step Progress.init s ->
  exists (k : nat) (v : Z),
    v <> 0 /\
    worker_events (Progress.history s) `prefix_of` complete_run k v /\
    (Progress.worker s = Progress.Returned ->
     worker_events (Progress.history s) = complete_run k v).
Proof.
  intros Hreach.
  destruct (on_a_run_reachable s Hreach) as (k & v & Hv & Hrun).
  rewrite Hrun. clear Hrun.
  destruct (Progress.worker s) eqn:Hpc;
    try (destruct (run_up_to_prefix (Progress.worker s) k v) as [k' Hpre];
         rewrite Hpc in Hpre;
         exists k', v; split; [assumption |]; split;
         [exact Hpre | discriminate]).
  exists k, v. split; [assumption |]. cbn [run_up_to].
  split; [exists []; now rewrite app_nil_r | reflexivity].
Qed.

Lemma progress_thread_follows_a_run_witness :
  exists (k : nat) (v : Z),
    v <> 0 /\
    worker_events
      [Progress.W Progress.CS_ENTER; Progress.W Progress.Progress_start;
       Progress.W (Progress.Load 0); Progress.M (Progress.Store 1);
       Progress.W Progress.Progress_test]
    `prefix_of` complete_run k v /\
    (Progress.At_cs_yield = Progress.Returned ->
     worker_events
       [Progress.W Progress.CS_ENTER; Progress.W Progress.Progress_start;
        Progress.W (Progress.Load 0); Progress.M (Progress.Store 1);
        Progress.W Progress.Progress_test]
     = complete_run k v).
Proof.
  apply (progress_thread_follows_a_run
           {| Progress.async_done := 1; Progress.worker := Progress.At_cs_yield;
              Progress.main := Progress.At_join;
              Progress.history :=
                [Progress.W Progress.CS_ENTER; Progress.W Progress.Progress_start;
                 Progress.W (Progress.Load 0); Progress.M (Progress.Store 1);
                 Progress.W Progress.Progress_test] |}).
  eapply rtc_l; [apply Progress.step_worker; reflexivity |].
  eapply rtc_l; [apply Progress.step_worker; reflexivity |].
  eapply rtc_l; [apply Progress.step_worker; reflexivity |].
  eapply rtc_l; [apply Progress.step_main; reflexivity |].
  eapply rtc_l; [apply Progress.step_worker; reflexivity |].
  apply rtc_refl.
Defined.

(** X14: the two threads never block each other for good: the states
    without a step are exactly those in which both have returned, and from
    every state that an interleaving reaches there is a way on to such a
    state (the store if it is still to come, the rest of the run of the
    progress thread, then the join). *)
Theorem shutdown_has_no_deadlock :
  (forall s : Progress.sys,
     (forall s', ~ Progress.step s s') <-> finished s) /\
  (forall s : Progress.sys,
     rtc Progress.step Progress.init s ->
     exists s', rtc Progress.step s s' /\ finished s').
Proof.
  split.
  - intros s. unfold finished. split.
    + intros Hstuck.
      assert (Hw : Progress.worker s = Progress.Returned).
      { destruct (Progress.worker s) eqn:Hpc; try reflexivity;
          destruct (worker_step_unless_returned s) as [s' Hs'];
          try (rewrite Hpc; discriminate);
          exfalso; apply (Hstuck s'); now apply Progress.step_worker. }
      split; [assumption |].
      destruct (Progress.main s) eqn:Hm; [| | reflexivity]; exfalso.
      * eapply Hstuck, Progress.step_main. unfold Progress.finalize_step.
        rewrite Hm. reflexivity.
      * eapply Hstuck, Progress.step_main. unfold Progress.finalize_step.
        rewrite Hm, Hw. reflexivity.
    + intros [Hw Hm] s' Hstep. destruct Hstep as [s s' H | s s' H].
      * unfold Progress.worker_step in H. rewrite Hw in H. discriminate.
      * unfold Progress.finalize_step in H. rewrite Hm in H. discriminate.
  - intros s Hreach.
    assert (Hjoin : forall s1,
              rtc Progress.step Progress.init s1 ->
              Progress.main s1 = Progress.At_join ->
              exists s', rtc Progress.step s1 s' /\ finished s').
    { intros s1 Hreach1 Hm1.
      destruct (invariant_reachable s1 Hreach1) as [_ _ Hinv].
      rewrite Hm1 in Hinv. destruct Hinv as (Hdone & _).
      pose proof (run_worker_steps 5 s1) as Hrun.
      assert (Hret : Progress.worker (Progress.run_worker 5 s1) = Progress.Returned)
        by (apply run_worker_returns; rewrite Hdone; discriminate).
      destruct (run_worker_frame 5 s1) as [_ Hmain].
      eexists. split.
      - eapply rtc_r; [exact Hrun |]. apply Progress.step_main.
        unfold Progress.finalize_step. rewrite Hmain, Hm1, Hret. reflexivity.
      - split; reflexivity. }
    destruct (Progress.main s) eqn:Hm.
    + set (s1 := {| Progress.async_done := 1; Progress.worker := Progress.worker s;
                    Progress.main := Progress.At_join;
                    Progress.history :=
                      Progress.history s ++ [Progress.M (Progress.Store 1)] |}).
      assert (Hstep : Progress.step s s1).
      { apply Progress.step_main. unfold Progress.finalize_step. now rewrite Hm. }
      destruct (Hjoin s1) as (s' & Hto & Hfin);
        [eapply rtc_r; eassumption | reflexivity |].
      exists s'. split; [eapply rtc_l; eassumption | assumption].
    + now apply Hjoin.
    + exists s. split; [apply rtc_refl |].
      split; [now apply returned_when_finalized | assumption].
Qed.

(** X15: the progress thread does not stop by itself: as long as
    [MPIR_Finalize_async_thread] has not stored the flag, no load of the
    thread has read it set, and the thread has not left its loop, so it
    has not returned. *)
Theorem progress_thread_runs_until_store (s : Progress.sys) :
  rtc Progress.step Progress.init s ->
  Progress.main s = Progress.At_store ->
  after_stop (Progress.history s) = None /\
  Progress.worker s <> Progress.At_progress_end /\
  Progress.worker s <> Progress.At_cs_exit /\
  Progress.worker s <> Progress.Returned.
Proof.
  intros Hreach Hmain.
  pose proof (in_loop_before_store s Hreach Hmain) as Hphase.
  destruct (invariant_reachable s Hreach) as [Hstop _ _].
  rewrite Hphase in Hstop. split.
  - destruct (after_stop (Progress.history s)); [discriminate | reflexivity].
  - repeat split; intros Hpc; rewrite Hpc in Hphase; discriminate.
Qed.

Lemma progress_thread_runs_until_store_witness :
  after_stop
    [Progress.W Progress.CS_ENTER; Progress.W Progress.Progress_start;
     Progress.W (Progress.Load 0)] = None /\
  Progress.At_progress_test <> Progress.At_progress_end /\
  Progress.At_progress_test <> Progress.At_cs_exit /\
  Progress.At_progress_test <> Progress.Returned.
Proof.
  apply (progress_thread_runs_until_store
           {| Progress.async_done := 0; Progress.worker := Progress.At_progress_test;
              Progress.main := Progress.At_store;
              Progress.history :=
                [Progress.W Progress.CS_ENTER; Progress.W Progress.Progress_start;
                 Progress.W (Progress.Load 0)] |}).
  - eapply rtc_l; [apply Progress.step_worker; reflexivity |].
    eapply rtc_l; [apply Progress.step_worker; reflexivity |].
    eapply rtc_l; [apply Progress.step_worker; reflexivity |].
    apply rtc_refl.
  - reflexivity.
Defined.

(** ** What the parser reports *)

Section ReportFacts.
Import Async.

(** The loop on a string whose entries [good] it takes, and which then
    ends ([rest] empty) or goes on with an entry that is negative. *)
Lemma parse_affinity_loop_stops (good : list string) :
  forall (n : nat) (rc : Z) (tmp : option string) (done : list (option Z))
         (N : Z) (aff : string) (rest : list string),
    entries_left tmp = good ++ rest ->
    forallb accepted_entry good = true ->
    (length good < n)%nat ->
    match rest with
    | [] => True
    | bad :: _ => negative_entry bad = true
    end ->
    parse_affinity_loop n (Z.of_nat (length done)) rc tmp
      (done ++ replicate n None) N aff =
    Some (MPI_ERR_OTHER, rc + Z.of_nat (length good),
          done ++ map (fun e => Some (entry_value e)) good
          ++ replicate (n - length good) None,
          [Ev_printf
             match rest with
             | [] => Msg_unexpected_end N (rc + Z.of_nat (length good)) aff
             | bad :: _ => Msg_unexpected_proc_id bad aff
             end]).
Proof.
  induction good as [| g good IH];
    intros n rc tmp done N aff rest Hent Hacc Hlen Hrest.
  - destruct n as [| n]; [cbn in Hlen; lia |].
    cbn [parse_affinity_loop length map app]. cbn [app] in Hent.
    rewrite Z.add_0_r, Nat.sub_0_r.
    pose proof (MPL_strsep_entries tmp) as Hsep.
    destruct (Libc.MPL_strsep tmp affinity_delim) as [[tok |] tmp'];
      rewrite Hent in Hsep.
    + destruct rest as [| bad rest]; [discriminate |].
      injection Hsep as <- _. unfold negative_entry in Hrest.
      destruct (Libc.atoi bad) as [v |]; [| discriminate].
      cbn [mbind option_bind]. now rewrite Hrest.
    + now rewrite Hsep.
  - destruct n as [| n]; [cbn in Hlen; lia |].
    cbn [length] in Hlen. cbn [forallb] in Hacc.
    apply andb_prop in Hacc as [Hg Hacc].
    cbn [parse_affinity_loop replicate].
    pose proof (MPL_strsep_entries tmp) as Hsep.
    destruct (Libc.MPL_strsep tmp affinity_delim) as [[tok |] tmp'];
      rewrite Hent in Hsep; [| discriminate].
    cbn [app] in Hsep. injection Hsep as <- Hent'.
    unfold accepted_entry in Hg.
    destruct (Libc.atoi g) as [v |] eqn:Hv; [| discriminate].
    cbn [mbind option_bind]. apply Z.leb_le in Hg.
    destruct (Z.ltb_spec v 0) as [Hneg | _]; [lia |].
    rewrite array_set_next. cbn [mbind option_bind].
    replace (Z.of_nat (length done) + 1)
      with (Z.of_nat (length (done ++ [Some v])))
      by (rewrite length_app; cbn [length]; lia).
    rewrite (IH n (rc + 1) tmp' (done ++ [Some v]) N aff rest
               (eq_sym Hent') Hacc ltac:(lia) Hrest).
    assert (Hval : entry_value g = v) by (unfold entry_value; now rewrite Hv).
    cbn [length map]. rewrite Hval.
    rewrite <- !app_assoc. cbn [app].
    replace (rc + 1 + Z.of_nat (length good))
      with (rc + Z.of_nat (S (length good))) by lia.
    reflexivity.
Qed.

Lemma parse_stops (cfg : config) (aff : string) (N : Z)
    (good rest : list string) :
  MPIR_CVAR_CH4_PROGRESS_THREAD_AFFINITY cfg = Some aff ->
  0 < Libc.strlen aff ->
  entries aff = good ++ rest ->
  forallb accepted_entry good = true ->
  (length good < Z.to_nat N)%nat ->
  match rest with
  | [] => True
  | bad :: _ => negative_entry bad = true
  end ->
  MPIDI_parse_progress_thread_affinity cfg (MPL_malloc N) N =
  Some (MPI_ERR_OTHER,
        map (fun e => Some (entry_value e)) good
        ++ replicate (Z.to_nat N - length good) None,
        [Ev_printf
           match rest with
           | [] => Msg_unexpected_end N (Z.of_nat (length good)) aff
           | bad :: _ => Msg_unexpected_proc_id bad aff
           end]).
Proof.
  intros Haff Hlen Hent Hacc Hshort Hrest.
  unfold MPIDI_parse_progress_thread_affinity. rewrite Haff.
  destruct (Z.eqb_spec (Libc.strlen aff) 0) as [H0 | _]; [lia |].
  pose proof (parse_affinity_loop_stops good (Z.to_nat N) 0 (Some aff) [] N aff
                rest Hent Hacc Hshort Hrest) as Hloop.
  cbn [length app] in Hloop. change (Z.of_nat 0) with 0 in Hloop.
  rewrite Z.add_0_l in Hloop.
  unfold MPL_malloc. rewrite Hloop. cbn [mbind option_bind].
  change (MPI_ERR_OTHER =? MPI_SUCCESS) with false. cbv iota.
  reflexivity.
Qed.

End ReportFacts.

(** X16: on a non-empty affinity string with fewer entries than the
    [N] slots, all of them taken, the parser returns [MPI_ERR_OTHER] and
    prints the message of an unexpected end with [N] and the number of
    entries read; the table holds the values read and the other cells
    are not written. *)
Theorem short_affinity_is_reported (cfg : Async.config) (aff : string) (N : Z) :
  Async.MPIR_CVAR_CH4_PROGRESS_THREAD_AFFINITY cfg = Some aff ->
  0 < Libc.strlen aff ->
  forallb accepted_entry (entries aff) = true ->
  (length (entries aff) < Z.to_nat N)%nat ->
  Async.MPIDI_parse_progress_thread_affinity cfg (Async.MPL_malloc N) N =
  Some (MPI_ERR_OTHER,
        map (fun e => Some (entry_value e)) (entries aff)
        ++ replicate (Z.to_nat N - length (entries aff)) None,
        [Async.Ev_printf
           (Async.Msg_unexpected_end N (Z.of_nat (length (entries aff))) aff)]).
Proof.
  intros Haff Hlen Hacc Hshort.
  apply (parse_stops cfg aff N (entries aff) [] Haff Hlen);
    [now rewrite app_nil_r | assumption | assumption | exact I].
Qed.

Lemma short_affinity_is_reported_witness :
  Async.MPIDI_parse_progress_thread_affinity
    (example_config (Some "5 6") 4 0 8 3 0) (Async.MPL_malloc 4) 4 =
  Some (MPI_ERR_OTHER,
        map (fun e => Some (entry_value e)) (entries "5 6")
        ++ replicate (Z.to_nat 4 - length (entries "5 6")) None,
        [Async.Ev_printf
           (Async.Msg_unexpected_end 4 (Z.of_nat (length (entries "5 6"))) "5 6")]).
Proof.
  apply (short_affinity_is_reported (example_config (Some "5 6") 4 0 8 3 0)
           "5 6" 4).
  - reflexivity.
  - reflexivity.
  - reflexivity.
  - vm_compute. lia.
Defined.

(** X17: the parser stops at the first negative entry among the first
    [N]: when the entries before it are taken, it returns
    [MPI_ERR_OTHER] and prints that entry with the whole string; the
    table holds the values of the entries before it, and nothing that
    stands after it is read. *)
Theorem negative_entry_is_reported (cfg : Async.config) (aff : string) (N : Z)
    (good : list string) (bad : string) (rest : list string) :
  Async.MPIR_CVAR_CH4_PROGRESS_THREAD_AFFINITY cfg = Some aff ->
  0 < Libc.strlen aff ->
  entries aff = good ++ bad :: rest ->
  forallb accepted_entry good = true ->
  negative_entry bad = true ->
  (length good < Z.to_nat N)%nat ->
  Async.MPIDI_parse_progress_thread_affinity cfg (Async.MPL_malloc N) N =
  Some (MPI_ERR_OTHER,
        map (fun e => Some (entry_value e)) good
        ++ replicate (Z.to_nat N - length good) None,
        [Async.Ev_printf (Async.Msg_unexpected_proc_id bad aff)]).
Proof.
  intros Haff Hlen Hent Hacc Hbad Hshort.
  apply (parse_stops cfg aff N good (bad :: rest) Haff Hlen Hent Hacc Hshort Hbad).
Qed.

Lemma negative_entry_is_reported_witness :
  Async.MPIDI_parse_progress_thread_affinity
    (example_config (Some "1,-2,zz") 3 0 8 3 0) (Async.MPL_malloc 3) 3 =
  Some (MPI_ERR_OTHER,
        map (fun e => Some (entry_value e)) ["1"]
        ++ replicate (Z.to_nat 3 - length ["1"]) None,
        [Async.Ev_printf (Async.Msg_unexpected_proc_id "-2" "1,-2,zz")]).
Proof.
  apply (negative_entry_is_reported (example_config (Some "1,-2,zz") 3 0 8 3 0)
           "1,-2,zz" 3 ["1"] "-2" ["zz"]).
  - reflexivity.
  - reflexivity.
  - reflexivity.
  - reflexivity.
  - reflexivity.
  - vm_compute. lia.
Defined.

(** ** A start with an affinity string *)

(** X18: with a non-empty affinity string whose first entries, as many
    as the table has slots, are all taken, an index inside the table and
    a thread that [MPID_Thread_create] makes, [MPIR_Init_async_thread]
    pins the thread to the number that [atoi] reads of the entry at
    [affinity_idx]; it returns [MPI_SUCCESS] when the pinning answers 0
    and [MPI_ERR_OTHER] otherwise, and the thread runs in both cases. *)
Theorem init_pins_to_listed_processor (cfg : Async.config) (s : Async.state)
    (aff listed : string) (tid : Z) :
  Async.MPIR_CVAR_CH4_PROGRESS_THREAD_AFFINITY cfg = Some aff ->
  0 < Libc.strlen aff ->
  (Z.to_nat (table_size cfg) <= length (entries aff))%nat ->
  forallb accepted_entry (take (Z.to_nat (table_size cfg)) (entries aff)) = true ->
  0 <= table_index cfg < table_size cfg ->
  entries aff !! Z.to_nat (table_index cfg) = Some listed ->
  Async.MPID_Thread_create cfg = (0, tid) ->
  let thr_err := Async.MPL_thread_set_affinity cfg tid (entry_value listed) in
  Async.MPIR_Init_async_thread cfg s =
  Some (if thr_err =? 0 then MPI_SUCCESS else MPI_ERR_OTHER,
        spawned tid
          (events_before_parse cfg
           ++ [Async.Ev_thread_create 0 tid;
               Async.Ev_set_affinity tid (table_index cfg) (entry_value listed)
                 thr_err;
               Async.Ev_free]) s).
Proof.
  intros Haff Hlen Hcount Hacc Hidx Hlisted Hcreate thr_err.
  assert (Hparse : Async.MPIDI_parse_progress_thread_affinity cfg
                     (Async.MPL_malloc (table_size cfg)) (table_size cfg) =
                   Some (0,
                         map (fun e => Some (entry_value e))
                           (take (Z.to_nat (table_size cfg)) (entries aff)),
                         [])).
  { unfold Async.MPIDI_parse_progress_thread_affinity. rewrite Haff.
    destruct (Z.eqb_spec (Libc.strlen aff) 0) as [H0 | _]; [lia |].
    pose proof (parse_affinity_loop_accepts (Z.to_nat (table_size cfg)) 0
                  (Some aff) [] (table_size cfg) aff Hcount Hacc) as Hloop.
    cbn [length app] in Hloop. change (Z.of_nat 0) with 0 in Hloop.
    unfold Async.MPL_malloc. rewrite Hloop. cbn [mbind option_bind].
    change (MPI_SUCCESS =? MPI_SUCCESS) with true. cbv iota.
    destruct (Z.ltb_spec (0 + Z.of_nat (Z.to_nat (table_size cfg)))
                (table_size cfg)) as [Hlt | _]; [lia | reflexivity]. }
  assert (Hcell : Async.array_get
                    (map (fun e => Some (entry_value e))
                       (take (Z.to_nat (table_size cfg)) (entries aff)))
                    (table_index cfg) = Some (entry_value listed)).
  { unfold Async.array_get.
    destruct (Z.ltb_spec (table_index cfg) 0) as [Hneg | _]; [lia |].
    change (map (fun e => Some (entry_value e)))
      with (fmap (M := list) (fun e => Some (entry_value e))).
    rewrite list_lookup_fmap, lookup_take_lt by lia.
    now rewrite Hlisted. }
  rewrite (init_thread_created cfg s _ [] tid (entry_value listed)
             Hparse Hcreate Hcell).
  fold thr_err.
  assert (Hgiven : Async.affinity_given cfg = true).
  { unfold Async.affinity_given. rewrite Haff. now apply Z.ltb_lt. }
  rewrite Hgiven. cbn [andb app].
  now destruct (thr_err =? 0).
Qed.

Lemma init_pins_to_listed_processor_witness :
  Async.MPIR_Init_async_thread (example_config (Some "4,2,6") 3 1 8 3 0)
    Async.initial_state =
  Some (if 0 =? 0 then MPI_SUCCESS else MPI_ERR_OTHER,
        spawned 7
          (events_before_parse (example_config (Some "4,2,6") 3 1 8 3 0)
           ++ [Async.Ev_thread_create 0 7;
               Async.Ev_set_affinity 7
                 (table_index (example_config (Some "4,2,6") 3 1 8 3 0))
                 (entry_value "2") 0;
               Async.Ev_free]) Async.initial_state).
Proof.
  apply (init_pins_to_listed_processor (example_config (Some "4,2,6") 3 1 8 3 0)
           Async.initial_state "4,2,6" "2" 7).
  - reflexivity.
  - reflexivity.
  - vm_compute. lia.
  - reflexivity.
  - vm_compute. split; [discriminate | reflexivity].
  - reflexivity.
  - reflexivity.
Defined.

Example init_pins_second_rank_to_second_entry :
  Async.MPIR_Init_async_thread (example_config (Some "4,2,6") 3 1 8 3 0)
    Async.initial_state =
  Some (MPI_SUCCESS,
        spawned 7 [Async.Ev_malloc 3; Async.Ev_thread_create 0 7;
                   Async.Ev_set_affinity 7 1 2 0; Async.Ev_free]
          Async.initial_state).
Proof. reflexivity. Qed.
